(** * Split / Fastly edge demo: the storage-adapter shim, the request router
      and the synchronisation script, embedded and verified.

    Sources embedded here:
    - [src/SplitStorageWrapper.js]  the shim over the Fastly Compute KV store;
    - [sync-to-kv.js]               the shim over the Fastly HTTP API and the
                                    exit protocol of the script;
    - the request handler ([handleRequest], [handleGetTreatment],
      [handleStatus]) and [src/config.js].

    Conventions of the embedding:
    - An [async] function is a function from worlds to a result and a world
      ([M]); a result is a returned value or a thrown error; [await] is
      sequencing and [try]/[catch] is [try_catch].
    - The world holds the texts of the KV store by key and the lines written
      with [console.error].  Lines written with [console.log] are not kept.
    - The platform is outside the repository.  The KV store binding and the
      HTTP API do what their names say on the stored texts, except where
      they fail: each store object carries the set of calls it rejects, and
      the properties quantify over it.  The SDK (the synchronizer, the flag
      evaluation) is a parameter.
    - Stored texts are JSON.  [JSON.stringify] and [JSON.parse] are
      implemented on the fragment the shim uses: numbers are integers (in
      the range where JavaScript numbers are exact), strings are byte
      strings (the UTF-8 text of the store), objects are member lists.  A
      numeral with a fraction or an exponent and a [\u] escape above 127
      denote values outside the fragment; the parser refuses them.
    - JavaScript numbers are doubles.  A sum or a difference is computed
      where the double result is the integer result: when an operand is 0,
      and when the operands and the result are integers of magnitude at most
      2^53.  Every other result is rounded by the platform and left open.
    - The items of the set operations are strings, as the SDK's storage
      contract passes them. *)

From Stdlib Require Import ZArith Ascii String List Lia.
From Stdlib Require Import DecimalN DecimalFacts.
From stdpp Require Import base option list strings gmap.

Local Open Scope string_scope.
Local Open Scope Z_scope.
Local Open Scope list_scope.

(** ** JSON values and the platform codec *)

Module JSON.

(** The fragment of JavaScript values the shim moves through the store:
    numbers are integers (the counters and change numbers the SDK keeps),
    strings are byte strings, objects are member lists in property order.
    Compound values are opaque to the shim: it never looks inside an object
    and compares array elements only with [SameValueZero]. *)
Unset Elimination Schemes.
Inductive value : Type :=
  | JNull
  | JBool (b : bool)
  | JNum (n : Z)
  | JStr (s : string)
  | JArr (l : list value)
  | JObj (m : list (string * value)).
Set Elimination Schemes.

Section value_induction.
Variable P : value → Prop.
Hypothesis Hnull : P JNull.
Hypothesis Hbool : ∀ b, P (JBool b).
Hypothesis Hnum : ∀ n, P (JNum n).
Hypothesis Hstr : ∀ s, P (JStr s).
Hypothesis Harr : ∀ l, Forall P l → P (JArr l).
Hypothesis Hobj : ∀ m, Forall (λ kv, P kv.2) m → P (JObj m).

Fixpoint value_ind (v : value) : P v :=
  match v with
  | JNull => Hnull
  | JBool b => Hbool b
  | JNum n => Hnum n
  | JStr s => Hstr s
  | JArr l =>
      Harr l ((fix go (l : list value) : Forall P l :=
                 match l with
                 | [] => Forall_nil_2 P
                 | x :: r => Forall_cons_2 P x r (value_ind x) (go r)
                 end) l)
  | JObj m =>
      Hobj m ((fix go (m : list (string * value)) : Forall (λ kv, P kv.2) m :=
                 match m with
                 | [] => Forall_nil_2 _
                 | kv :: r => Forall_cons_2 _ kv r (value_ind kv.2) (go r)
                 end) m)
  end.
End value_induction.

(** The double quote, character 34. *)
Abbreviation DQ := (Ascii false true false false false true false false)
  (only parsing).

(** *** [JSON.stringify] *)

Fixpoint uint_string (d : Decimal.uint) : string :=
  match d with
  | Decimal.Nil => ""
  | Decimal.D0 d => String "0" (uint_string d)
  | Decimal.D1 d => String "1" (uint_string d)
  | Decimal.D2 d => String "2" (uint_string d)
  | Decimal.D3 d => String "3" (uint_string d)
  | Decimal.D4 d => String "4" (uint_string d)
  | Decimal.D5 d => String "5" (uint_string d)
  | Decimal.D6 d => String "6" (uint_string d)
  | Decimal.D7 d => String "7" (uint_string d)
  | Decimal.D8 d => String "8" (uint_string d)
  | Decimal.D9 d => String "9" (uint_string d)
  end.

Definition number_string (n : Z) : string :=
  match n with
  | Z0 => "0"
  | Zpos p => uint_string (N.to_uint (Npos p))
  | Zneg p => String "-" (uint_string (N.to_uint (Npos p)))
  end.

Definition hex_char (n : N) : ascii :=
  if (n <? 10)%N then ascii_of_N (48 + n) else ascii_of_N (87 + n).

(** QuoteJSONString: the two-character escapes, [\u00xx] for the other
    control characters, every other byte as it is. *)
Definition escape_char (c : ascii) : string :=
  let n := N_of_ascii c in
  if (n =? 34)%N then String "\" (String DQ "")
  else if (n =? 92)%N then String "\" (String "\" "")
  else if (n =? 8)%N then String "\" (String "b" "")
  else if (n =? 12)%N then String "\" (String "f" "")
  else if (n =? 10)%N then String "\" (String "n" "")
  else if (n =? 13)%N then String "\" (String "r" "")
  else if (n =? 9)%N then String "\" (String "t" "")
  else if (n <? 32)%N then
    String "\" (String "u" (String "0" (String "0"
      (String (hex_char (n / 16)) (String (hex_char (n mod 16)) "")))))
  else String c "".

Fixpoint escape (s : string) : string :=
  match s with
  | "" => ""
  | String c r => escape_char c +:+ escape r
  end.

Definition quote (s : string) : string :=
  String DQ (escape s +:+ String DQ "").

Section members.
Variable stringify : value → string.

(** What follows the first element of an array, up to the bracket. *)
Fixpoint elems_tail (l : list value) : string :=
  match l with
  | [] => "]"
  | x :: r => String "," (stringify x +:+ elems_tail r)
  end.

Definition member (kv : string * value) : string :=
  quote kv.1 +:+ String ":" (stringify kv.2).

Fixpoint membs_tail (m : list (string * value)) : string :=
  match m with
  | [] => "}"
  | kv :: r => String "," (member kv +:+ membs_tail r)
  end.
End members.

Fixpoint stringify (v : value) : string :=
  match v with
  | JNull => "null"
  | JBool true => "true"
  | JBool false => "false"
  | JNum n => number_string n
  | JStr s => quote s
  | JArr [] => "[]"
  | JArr (x :: r) => String "[" (stringify x +:+ elems_tail stringify r)
  | JObj [] => "{}"
  | JObj (kv :: r) =>
      String "{" (member stringify kv +:+ membs_tail stringify r)
  end.

(** *** [JSON.parse] *)

Definition is_ws (c : ascii) : bool :=
  let n := N_of_ascii c in
  (n =? 32)%N || (n =? 9)%N || (n =? 10)%N || (n =? 13)%N.

Fixpoint skip_ws (s : string) : string :=
  match s with
  | String c r => if is_ws c then skip_ws r else s
  | "" => ""
  end.

Definition digit_of (c : ascii) : option (Decimal.uint → Decimal.uint) :=
  match N_of_ascii c with
  | 48 => Some Decimal.D0 | 49 => Some Decimal.D1 | 50 => Some Decimal.D2
  | 51 => Some Decimal.D3 | 52 => Some Decimal.D4 | 53 => Some Decimal.D5
  | 54 => Some Decimal.D6 | 55 => Some Decimal.D7 | 56 => Some Decimal.D8
  | 57 => Some Decimal.D9
  | _ => None
  end%N.

Fixpoint read_digits (s : string) : Decimal.uint * string :=
  match s with
  | String c r =>
      match digit_of c with
      | Some mk => let '(d, r') := read_digits r in (mk d, r')
      | None => (Decimal.Nil, s)
      end
  | "" => (Decimal.Nil, "")
  end.

(** A numeral continues into a fraction or an exponent at these characters;
    such numerals denote numbers outside the integer fragment and are read
    as malformed. *)
Definition continues_numeral (s : string) : bool :=
  match s with
  | String c _ =>
      let n := N_of_ascii c in (n =? 46)%N || (n =? 101)%N || (n =? 69)%N
  | "" => false
  end.

(** The integer part: [0] or a digit run without a leading zero. *)
Definition parse_nat (s : string) : option (N * string) :=
  let '(d, r) := read_digits s in
  match d with
  | Decimal.Nil => None
  | Decimal.D0 (Decimal.Nil) => if continues_numeral r then None else Some (0%N, r)
  | Decimal.D0 _ => None
  | _ => if continues_numeral r then None else Some (N.of_uint d, r)
  end.

Definition hex_val (c : ascii) : option N :=
  let n := N_of_ascii c in
  if (48 <=? n)%N && (n <=? 57)%N then Some (n - 48)%N
  else if (97 <=? n)%N && (n <=? 102)%N then Some (n - 87)%N
  else if (65 <=? n)%N && (n <=? 70)%N then Some (n - 55)%N
  else None.

(** [\uXXXX]: the code units below 128 are bytes of the model; the others
    lie outside the byte-string fragment and are read as malformed. *)
Definition unicode_escape (a b c d : ascii) : option ascii :=
  ha ← hex_val a; hb ← hex_val b; hc ← hex_val c; hd ← hex_val d;
  let n := (((ha * 16 + hb) * 16 + hc) * 16 + hd)%N in
  if (n <? 128)%N then Some (ascii_of_N n) else None.

(** The characters of a string literal after its opening quote, up to and
    including the closing quote. *)
Fixpoint parse_string_body (s : string) : option (string * string) :=
  match s with
  | "" => None
  | String c r =>
      let n := N_of_ascii c in
      if (n =? 34)%N then Some ("", r)
      else if (n =? 92)%N then
        match r with
        | String e r1 =>
            let push (x : N) (k : string) :=
              '(t, r') ← parse_string_body k; Some (String (ascii_of_N x) t, r') in
            match N_of_ascii e with
            | 34 => push 34 r1
            | 92 => push 92 r1
            | 47 => push 47 r1
            | 98 => push 8 r1
            | 102 => push 12 r1
            | 110 => push 10 r1
            | 114 => push 13 r1
            | 116 => push 9 r1
            | 117 =>
                match r1 with
                | String h1 (String h2 (String h3 (String h4 r2))) =>
                    x ← unicode_escape h1 h2 h3 h4;
                    '(t, r') ← parse_string_body r2; Some (String x t, r')
                | _ => None
                end
            | _ => None
            end%N
        | "" => None
        end
      else if (n <? 32)%N then None
      else '(t, r') ← parse_string_body r; Some (String c t, r')
  end.

(** The text after one given character, after a given word. *)
Definition expect (c : ascii) (s : string) : option string :=
  match s with
  | String c' r => if Ascii.eqb c c' then Some r else None
  | "" => None
  end.

Fixpoint strip (word s : string) : option string :=
  match word with
  | "" => Some s
  | String c word' => r ← expect c s; strip word' r
  end.

Fixpoint parse_value (fuel : nat) (s : string) {struct fuel}
    : option (value * string) :=
  match fuel with
  | O => None
  | S fuel =>
      let s := skip_ws s in
      match strip "null" s with
      | Some r => Some (JNull, r)
      | None =>
      match strip "true" s with
      | Some r => Some (JBool true, r)
      | None =>
      match strip "false" s with
      | Some r => Some (JBool false, r)
      | None =>
      match expect DQ s with
      | Some r => '(t, r') ← parse_string_body r; Some (JStr t, r')
      | None =>
      match expect "[" s with
      | Some r =>
          match expect "]" (skip_ws r) with
          | Some r' => Some (JArr [], r')
          | None =>
              '(x, r1) ← parse_value fuel r;
              '(l, r2) ← parse_elems_tail fuel r1;
              Some (JArr (x :: l), r2)
          end
      | None =>
      match expect "{" s with
      | Some r =>
          match expect "}" (skip_ws r) with
          | Some r' => Some (JObj [], r')
          | None =>
              '(kv, r1) ← parse_member fuel r;
              '(m, r2) ← parse_membs_tail fuel r1;
              Some (JObj (kv :: m), r2)
          end
      | None =>
      match expect "-" s with
      | Some r => '(n, r') ← parse_nat r; Some (JNum (- Z.of_N n), r')
      | None => '(n, r') ← parse_nat s; Some (JNum (Z.of_N n), r')
      end end end end end end end
  end
with parse_elems_tail (fuel : nat) (s : string) {struct fuel}
    : option (list value * string) :=
  match fuel with
  | O => None
  | S fuel =>
      let s := skip_ws s in
      match expect "]" s with
      | Some r => Some ([], r)
      | None =>
          r ← expect "," s;
          '(x, r1) ← parse_value fuel r;
          '(l, r2) ← parse_elems_tail fuel r1;
          Some (x :: l, r2)
      end
  end
with parse_member (fuel : nat) (s : string) {struct fuel}
    : option ((string * value) * string) :=
  match fuel with
  | O => None
  | S fuel =>
      r ← expect DQ (skip_ws s);
      '(k, r1) ← parse_string_body r;
      r2 ← expect ":" (skip_ws r1);
      '(x, r3) ← parse_value fuel r2;
      Some ((k, x), r3)
  end
with parse_membs_tail (fuel : nat) (s : string) {struct fuel}
    : option (list (string * value) * string) :=
  match fuel with
  | O => None
  | S fuel =>
      let s := skip_ws s in
      match expect "}" s with
      | Some r => Some ([], r)
      | None =>
          r ← expect "," s;
          '(kv, r1) ← parse_member fuel r;
          '(m, r2) ← parse_membs_tail fuel r1;
          Some (kv :: m, r2)
      end
  end.

(** [JSON.parse]: one value, then only white space.  [None] is the
    [SyntaxError].  Every call of the parser consumes a character before it
    recurses, so the length of the text bounds the recursion and the fuel
    given here is never used up ([parse_enough_fuel] below). *)
Definition parse (text : string) : option value :=
  '(v, r) ← parse_value (S (S (String.length text))) text;
  if decide (skip_ws r = "") then Some v else None.

End JSON.

(** ** JavaScript operators the shim applies to stored values *)

Module JS.
Import JSON.

(** ToBoolean. *)
Definition truthy (v : value) : bool :=
  match v with
  | JNull => false
  | JBool b => b
  | JNum n => negb (n =? 0)
  | JStr s => negb (String.eqb s "")
  | JArr _ | JObj _ => true
  end.

(** [a || b]. *)
Definition or_else (a b : value) : value := if truthy a then a else b.

(** [Array.isArray]. *)
Definition isArray (v : value) : bool :=
  match v with JArr _ => true | _ => false end.

(** SameValueZero between two occurrences of values.  Primitives compare by
    value.  An array or an object is equal to itself only, and the
    occurrences the shim compares are always different objects: the elements
    of a stored array are created afresh by [JSON.parse], on every read. *)
Definition same_value_zero (a b : value) : bool :=
  match a, b with
  | JNull, JNull => true
  | JBool x, JBool y => Bool.eqb x y
  | JNum x, JNum y => x =? y
  | JStr x, JStr y => String.eqb x y
  | _, _ => false
  end.

(** [arr.includes(x)]. *)
Definition includes (arr : list value) (x : value) : bool :=
  existsb (same_value_zero x) arr.

(** [Set.prototype.add] on the insertion-ordered elements of a Set. *)
Definition set_add (elems : list value) (x : value) : list value :=
  if includes elems x then elems else elems ++ [x].

(** [[...new Set(arr)]]: the elements of [arr] in order of first occurrence. *)
Definition new_Set (arr : list value) : list value :=
  fold_left set_add arr [].

(** The string iterator yields one string per code point: in the UTF-8
    bytes of the model, a byte and the continuation bytes after it. *)
Definition is_continuation (c : ascii) : bool :=
  let n := N_of_ascii c in (128 <=? n)%N && (n <? 192)%N.

Fixpoint code_points (s : string) : list string :=
  match s with
  | "" => []
  | String c r =>
      match code_points r with
      | String c' t :: l =>
          if is_continuation c' then String c (String c' t) :: l
          else String c "" :: String c' t :: l
      | l => String c "" :: l
      end
  end.

End JS.
Import JSON JS.

(** ** Effects: exceptions, the console and the stored texts *)

(** A JavaScript computation either returns or throws; [e] is the message of
    the error thrown. *)
Inductive result (A : Type) : Type :=
  | Ok (a : A)
  | Throw (e : string).
Arguments Ok {A} a.
Arguments Throw {A} e.

(** What the shim can observe and change: the texts held by the KV store,
    by key, and the lines written with [console.error]. *)
Record world : Type := World {
  kv_data : gmap string string;
  console : list string
}.

(** An [async] function: a state transformer that returns or throws.
    Awaiting is sequencing. *)
Definition M (A : Type) : Type := world → result A * world.

Definition ret {A} (a : A) : M A := λ w, (Ok a, w).

Definition throw {A} (e : string) : M A := λ w, (Throw e, w).

Definition bind {A B} (m : M A) (k : A → M B) : M B :=
  λ w, match m w with
       | (Ok a, w') => k a w'
       | (Throw e, w') => (Throw e, w')
       end.

(** [try { m } catch (error) { h error }]: what [m] did to the world before
    it threw stays done. *)
Definition try_catch {A} (m : M A) (h : string → M A) : M A :=
  λ w, match m w with
       | (Ok a, w') => (Ok a, w')
       | (Throw e, w') => h e w'
       end.

Notation "'await' x := m 'in' k" := (bind m (λ x, k))
  (at level 10, x name, m at level 100, k at level 200,
   format "'[v' 'await'  x  :=  m  'in' '/' k ']'").

(** [console.error(msg, error)]. *)
Definition console_error (msg error : string) : M unit :=
  λ w, (Ok tt, World (kv_data w) (console w ++ [msg +:+ " " +:+ error])).

(** [Promise.all(xs.map(f))]: the calls are started in the order of [xs] and
    the results are collected by index; the first rejection rejects the
    whole. *)
Fixpoint all_map {A B} (f : A → M B) (xs : list A) : M (list B) :=
  match xs with
  | [] => ret []
  | x :: r => await y := f x in await ys := all_map f r in ret (y :: ys)
  end.

(** [JSON.parse] as a computation: a [SyntaxError] on a malformed text. *)
Definition JSON_parse (text : string) : M value :=
  match JSON.parse text with
  | Some v => ret v
  | None => throw "SyntaxError: Unexpected token in JSON"
  end.

(** ** The Fastly Compute KV store binding *)

Module KV.

Record list_options : Type := ListOptions {
  opt_prefix : option string;
  opt_limit : option nat
}.

(** The calls the code makes on the binding. *)
Inductive call : Type :=
  | Get (key : string)
  | Text (key : string)
  | Put (key text : string)
  | Delete (key : string)
  | List (opts : list_options).

(** The store object handed to the shim.  The platform may reject any call;
    [rejects c] is the error it rejects call [c] with, if it does. *)
Record KVStore : Type := { rejects : call → option string }.

(** A store on which every call succeeds. *)
Definition reliable : KVStore := {| rejects := λ _, None |}.

(** The value of the variable [kvStore]: a store object, or [null] or
    [undefined] when the caller passed none. *)
Definition handle : Type := option KVStore.

(** A method call on the handle: a [TypeError] on [null], the platform's
    rejection if it rejects, the effect on the stored texts otherwise. *)
Definition invoke {A} (kv : handle) (c : call) (run : M A) : M A :=
  match kv with
  | None => throw "TypeError: Cannot read properties of null"
  | Some store =>
      match rejects store c with
      | Some e => throw e
      | None => run
      end
  end.

(** [kvStore.get(key)]: the entry, or [null] when the key is absent.  The
    entry is represented by the text its body holds. *)
Definition get (kv : handle) (key : string) : M (option string) :=
  invoke kv (Get key) (λ w, (Ok (kv_data w !! key), w)).

(** [entry.text()]. *)
Definition text (kv : handle) (key : string) (entry : string) : M string :=
  invoke kv (Text key) (ret entry).

(** [kvStore.put(key, text)]. *)
Definition put (kv : handle) (key text : string) : M unit :=
  invoke kv (Put key text)
    (λ w, (Ok tt, World (<[key := text]> (kv_data w)) (console w))).

(** [kvStore.delete(key)]. *)
Definition delete (kv : handle) (key : string) : M unit :=
  invoke kv (Delete key)
    (λ w, (Ok tt, World (base.delete key (kv_data w)) (console w))).

Definition has_prefix (p : option string) (key : string) : bool :=
  match p with
  | Some p => String.prefix p key
  | None => true
  end.

Definition at_most {A} (n : option nat) (l : list A) : list A :=
  match n with
  | Some n => take n l
  | None => l
  end.

(** The keys a listing yields: those with the prefix asked for, no more
    than the limit asked for. *)
Definition listing (opts : list_options) (w : world) : list string :=
  at_most (opt_limit opts)
    (List.filter (has_prefix (opt_prefix opts))
       (map fst (map_to_list (kv_data w)))).

(** [kvStore.list(opts)] resolves to an object, [{ list, cursor }] (the
    note in [getKeysByPrefix], SplitStorageWrapper.js line 66).  The
    computation returns its [list] property, the keys; the [cursor] property
    is read nowhere. *)
Definition list (kv : handle) (opts : list_options) : M (list string) :=
  invoke kv (List opts) (λ w, (Ok (listing opts w), w)).

End KV.

(** ** Arithmetic and iteration on stored values *)

(** [a + n] and [a - n] for a number [n].  Numbers are doubles: on a number
    [a] the result is the sum or the difference of the integers where the
    double arithmetic is exact, and the platform's rounding of it elsewhere.
    Any other truthy operand goes through the platform's ToPrimitive and
    ToNumber.  What the platform makes of an operation that the model does
    not compute (a rounded number, a string, a [TypeError]) the development
    leaves open: it holds for every such outcome. *)
Record Coercion : Type := {
  plus_other : value → Z → result value;
  minus_other : value → Z → result value
}.

Definition lift {A} (r : result A) : M A := λ w, (r, w).

(** The integers that doubles hold one by one: those of magnitude at most
    2^53.  From there on a double skips integers. *)
Definition exact_integer (z : Z) : bool := (- 2 ^ 53 <=? z) && (z <=? 2 ^ 53).

(** The double result of an operation on [c] and [n] is the integer result
    [r]: when an operand is 0 (the result is the other operand, or its
    opposite), and when the operands and the result are exact integers. *)
Definition exact (c n r : Z) : bool :=
  (c =? 0) || (n =? 0) ||
  (exact_integer c && exact_integer n && exact_integer r).

Definition plus (co : Coercion) (a : value) (n : Z) : M value :=
  match a with
  | JNum c =>
      if exact c n (c + n) then ret (JNum (c + n))
      else lift (plus_other co a n)
  | _ => lift (plus_other co a n)
  end.

Definition minus (co : Coercion) (a : value) (n : Z) : M value :=
  match a with
  | JNum c =>
      if exact c n (c - n) then ret (JNum (c - n))
      else lift (minus_other co a n)
  | _ => lift (minus_other co a n)
  end.

(** [...v] inside an array literal: the elements of an array, the code
    points of a string, a [TypeError] on anything else. *)
Definition spread (v : value) : M (list value) :=
  match v with
  | JArr l => ret l
  | JStr s => ret (JStr <$> code_points s)
  | _ => throw "TypeError: set is not iterable"
  end.

(** ** [src/SplitStorageWrapper.js] *)

Module SplitStorageWrapper.

Section wrapper.
(** [SplitStorageWrapper(kvStore)] *)
Variable kvStore : KV.handle.
Variable co : Coercion.

Definition getValue (key : string) : M value :=
  try_catch
    (await entry := KV.get kvStore key in
     match entry with
     | None => ret JNull
     | Some e =>
         await text := KV.text kvStore key e in
         if String.eqb text "" then ret JNull else JSON_parse text
     end)
    (λ error,
       await _ := console_error ("Error getting key " +:+ key +:+ ":") error in
       ret JNull).

Definition setValue (key : string) (value : value) : M bool :=
  try_catch
    (await _ := KV.put kvStore key (JSON.stringify value) in
     ret true)
    (λ error,
       await _ := console_error ("Error setting key " +:+ key +:+ ":") error in
       ret false).

Definition get (key : string) : M value := getValue key.

Definition set (key : string) (value : value) : M bool := setValue key value.

Definition getAndSet (key : string) (value : value) : M JSON.value :=
  await oldValue := getValue key in
  await _ := setValue key value in
  ret oldValue.

Definition del (key : string) : M bool :=
  try_catch
    (await _ := KV.delete kvStore key in
     ret true)
    (λ error,
       await _ := console_error ("Error deleting key " +:+ key +:+ ":") error in
       ret false).

Definition getKeysByPrefix (prefix : string) : M (list string) :=
  try_catch
    (await result := KV.list kvStore (KV.ListOptions (Some prefix) None) in
     ret result)
    (λ error,
       await _ := console_error
                    ("Error getting keys by prefix " +:+ prefix +:+ ":") error in
       ret []).

Definition getMany (keys : list string) : M (list value) :=
  try_catch
    (await results := all_map getValue keys in
     ret results)
    (λ error,
       await _ := console_error "Error getting multiple keys:" error in
       ret ((λ _, JNull) <$> keys)).

(** [increment = 1] when the caller passes none. *)
Definition incr (key : string) (increment : option Z) : M value :=
  let increment := default 1 increment in
  try_catch
    (await current := getValue key in
     await newValue := plus co (or_else current (JNum 0)) increment in
     await _ := setValue key newValue in
     ret newValue)
    (λ error,
       await _ := console_error
                    ("Error incrementing key " +:+ key +:+ ":") error in
       ret (JNum increment)).

Definition decr (key : string) (decrement : option Z) : M value :=
  let decrement := default 1 decrement in
  try_catch
    (await current := getValue key in
     await newValue := minus co (or_else current (JNum 0)) decrement in
     await _ := setValue key newValue in
     ret newValue)
    (λ error,
       await _ := console_error
                    ("Error decrementing key " +:+ key +:+ ":") error in
       ret (JNum (- decrement))).

Definition itemContains (key item : string) : M bool :=
  try_catch
    (await set := getValue key in
     ret (if truthy set && isArray set
          then match set with JArr l => includes l (JStr item) | _ => false end
          else false))
    (λ error,
       await _ := console_error
                    ("Error checking item in set " +:+ key +:+ ":") error in
       ret false).

Definition addItems (key : string) (items : list string) : M unit :=
  try_catch
    (await stored := getValue key in
     let set := or_else stored (JArr []) in
     await elems := spread set in
     let updatedSet := new_Set (elems ++ (JStr <$> items)) in
     await _ := setValue key (JArr updatedSet) in
     ret tt)
    (λ error,
       await _ := console_error
                    ("Error adding items to set " +:+ key +:+ ":") error in
       ret tt).

Definition removeItems (key : string) (items : list string) : M unit :=
  try_catch
    (await set := getValue key in
     if truthy set && isArray set then
       match set with
       | JArr l =>
           let updatedSet :=
             List.filter (λ item, negb (includes (JStr <$> items) item)) l in
           await _ := setValue key (JArr updatedSet) in
           ret tt
       | _ => ret tt
       end
     else ret tt)
    (λ error,
       await _ := console_error
                    ("Error removing items from set " +:+ key +:+ ":") error in
       ret tt).

Definition getItems (key : string) : M (list value) :=
  try_catch
    (await set := getValue key in
     ret (if truthy set && isArray set
          then match set with JArr l => l | _ => [] end
          else []))
    (λ error,
       await _ := console_error
                    ("Error getting items from set " +:+ key +:+ ":") error in
       ret []).

Definition connect : M unit :=
  match kvStore with
  | None => throw "Error: KV Store not provided"
  | Some _ => ret tt
  end.

Definition disconnect : M unit := ret tt.

Definition pushItems (key : string) (items : list string) : M unit := ret tt.

Definition popItems (key : string) (count : Z) : M (list value) := ret [].

Definition getItemsCount (key : string) : M Z := ret 0.

End wrapper.

End SplitStorageWrapper.

(** ** [sync-to-kv.js] *)

(** The Fastly HTTP API for KV stores, as [fetch] reaches it. *)
Module API.

Inductive request : Type :=
  | GetKey (key : string)
  | PutKey (key body : string)
  | DeleteKey (key : string).

Record response : Type := Response {
  status : Z;
  statusText : string;
  body : string
}.

(** [response.ok] *)
Definition ok (r : response) : bool := (200 <=? status r) && (status r <=? 299).

(** How a request can go wrong: [fetch] rejects (no connection), or the
    service does nothing and answers with a status of its own choosing and
    an empty body. *)
Inductive failure : Type :=
  | Rejected (e : string)
  | Refused (status : Z) (statusText : string).

(** The service behind [baseUrl], reached with the API token. *)
Record Service : Type := { fails : request → option failure }.

Definition reliable : Service := {| fails := λ _, None |}.

(** The service doing its work on the stored texts. *)
Definition serve (req : request) : M response :=
  λ w,
    match req with
    | GetKey key =>
        match kv_data w !! key with
        | Some text => (Ok (Response 200 "OK" text), w)
        | None => (Ok (Response 404 "Not Found" ""), w)
        end
    | PutKey key text =>
        (Ok (Response 200 "OK" ""),
         World (<[key := text]> (kv_data w)) (console w))
    | DeleteKey key =>
        match kv_data w !! key with
        | Some _ =>
            (Ok (Response 204 "No Content" ""),
             World (delete key (kv_data w)) (console w))
        | None => (Ok (Response 404 "Not Found" ""), w)
        end
    end.

(** [fetch(url, options)] *)
Definition fetch (api : Service) (req : request) : M response :=
  match fails api req with
  | Some (Rejected e) => throw e
  | Some (Refused status statusText) => ret (Response status statusText "")
  | None => serve req
  end.

End API.

Module SyncToKV.

Section wrapper.
(** [createFastlyKVWrapper(storeId, apiToken)]: the two arguments select
    the service the requests go to. *)
Variable api : API.Service.
Variable co : Coercion.

Definition getValue (key : string) : M value :=
  try_catch
    (await response := API.fetch api (API.GetKey key) in
     if API.status response =? 404 then ret JNull
     else if negb (API.ok response) then
       throw ("Fastly KV get failed: " +:+ API.statusText response)
     else
       let text := API.body response in
       if String.eqb text "" then ret JNull else JSON_parse text)
    (λ error,
       await _ := console_error ("Error getting key " +:+ key +:+ ":") error in
       ret JNull).

Definition setValue (key : string) (value : value) : M bool :=
  try_catch
    (await response :=
       API.fetch api (API.PutKey key (JSON.stringify value)) in
     if negb (API.ok response) then
       throw ("Fastly KV set failed: " +:+ API.statusText response)
     else ret true)
    (λ error,
       await _ := console_error ("Error setting key " +:+ key +:+ ":") error in
       ret false).

Definition get (key : string) : M value := getValue key.

Definition set (key : string) (value : value) : M bool := setValue key value.

Definition getAndSet (key : string) (value : value) : M JSON.value :=
  await oldValue := getValue key in
  await _ := setValue key value in
  ret oldValue.

Definition del (key : string) : M bool :=
  try_catch
    (await response := API.fetch api (API.DeleteKey key) in
     if API.ok response || (API.status response =? 404) then ret true
     else throw ("Fastly KV delete failed: " +:+ API.statusText response))
    (λ error,
       await _ := console_error ("Error deleting key " +:+ key +:+ ":") error in
       ret false).

Definition getMany (keys : list string) : M (list value) :=
  await results := all_map getValue keys in
  ret results.

Definition incr (key : string) (increment : option Z) : M value :=
  let increment := default 1 increment in
  await current := getValue key in
  await newValue := plus co (or_else current (JNum 0)) increment in
  await _ := setValue key newValue in
  ret newValue.

Definition decr (key : string) (decrement : option Z) : M value :=
  let decrement := default 1 decrement in
  await current := getValue key in
  await newValue := minus co (or_else current (JNum 0)) decrement in
  await _ := setValue key newValue in
  ret newValue.

Definition itemContains (key item : string) : M bool :=
  await set := getValue key in
  ret (if truthy set && isArray set
       then match set with JArr l => includes l (JStr item) | _ => false end
       else false).

Definition addItems (key : string) (items : list string) : M unit :=
  await stored := getValue key in
  let set := or_else stored (JArr []) in
  await elems := spread set in
  let updatedSet := new_Set (elems ++ (JStr <$> items)) in
  await _ := setValue key (JArr updatedSet) in
  ret tt.

Definition removeItems (key : string) (items : list string) : M unit :=
  await set := getValue key in
  if truthy set && isArray set then
    match set with
    | JArr l =>
        let updatedSet :=
          List.filter (λ item, negb (includes (JStr <$> items) item)) l in
        await _ := setValue key (JArr updatedSet) in
        ret tt
    | _ => ret tt
    end
  else ret tt.

Definition getItems (key : string) : M (list value) :=
  await set := getValue key in
  ret (if truthy set && isArray set
       then match set with JArr l => l | _ => [] end
       else []).

Definition connect : M unit := ret tt.

Definition disconnect : M unit := ret tt.

Definition pushItems (key : string) (items : list string) : M unit := ret tt.

Definition popItems (key : string) (count : Z) : M (list value) := ret [].

Definition getItemsCount (key : string) : M Z := ret 0.

End wrapper.

(** *** The script around the wrapper *)

(** [process.env]: a variable is unset or holds a string. *)
Record environment : Type := Environment {
  FASTLY_API_TOKEN : option string;
  SPLIT_SDK_KEY : option string;
  KV_STORE_ID : option string
}.

(** [!x] on a variable of the environment: unset or empty. *)
Definition missing (x : option string) : bool :=
  match x with
  | None => true
  | Some s => String.eqb s ""
  end.

(** The SDK's synchronizer, given the wrapper: [new Synchronizer(...)] and
    [execute(callback)] up to the call of the callback.  The computation
    returns the error the callback receives ([None] when it receives none)
    and throws when the SDK throws instead. *)
Definition Synchronizer : Type := M (option string).

Definition syncHarnessFMEToFastly (run : Synchronizer) : M unit :=
  await error := run in
  match error with
  | Some e =>
      await _ := console_error "Synchronization failed:" e in
      throw e
  | None => ret tt
  end.

(** The whole script: the status the process exits with, and the world it
    leaves. *)
Definition main (env : environment) (run : Synchronizer) (w : world)
    : Z * world :=
  if missing (FASTLY_API_TOKEN env) || missing (SPLIT_SDK_KEY env)
     || missing (KV_STORE_ID env)
  then
    (1, World (kv_data w)
          (console w ++ ["Missing required environment variables:";
                         "   FASTLY_API_TOKEN - Your Fastly API token";
                         "   SPLIT_SDK_KEY - Your Harness FME SDK key";
                         "   KV_STORE_ID - Your Fastly KV Store ID"]))
  else
    match syncHarnessFMEToFastly run w with
    | (Ok _, w') => (0, w')
    | (Throw e, w') =>
        (1, World (kv_data w') (console w' ++ ["Fatal error: " +:+ e]))
    end.

End SyncToKV.

(** ** [sync-to-kv.js]: the listing of keys *)

Module SyncToKVKeys.

(** [obj[name]] on the members of a parsed object: of two members with one
    name, the later one counts. *)
Fixpoint member (name : string) (m : list (string * value)) : option value :=
  match m with
  | [] => None
  | (k, v) :: r =>
      match member name r with
      | Some x => Some x
      | None => if String.eqb k name then Some v else None
      end
  end.

(** [v.name] for the names [data] and [key], which no prototype defines:
    a [TypeError] on [null], the member of an object, [undefined] ([None])
    on every other value. *)
Definition property (v : value) (name : string) : M (option value) :=
  match v with
  | JNull => throw "TypeError: Cannot read properties of null"
  | JObj m => ret (member name m)
  | _ => ret None
  end.

Section wrapper.
(** [fetch] of the listing URL for a prefix: it rejects or answers. *)
Variable list_fetch : string → M API.response.

(** The keys are returned as the answer gives them: each is a value or
    [undefined]. *)
Definition getKeysByPrefix (prefix : string) : M (list (option value)) :=
  try_catch
    (await response := list_fetch prefix in
     if negb (API.ok response) then
       throw ("Fastly KV list failed: " +:+ API.statusText response)
     else
       await data := JSON_parse (API.body response) in
       await listed := property data "data" in
       match listed with
       | Some (JArr items) => all_map (λ item, property item "key") items
       | Some d =>
           if truthy d then throw "TypeError: data.data.map is not a function"
           else ret []
       | None => ret []
       end)
    (λ error,
       await _ := console_error
                    ("Error listing keys with prefix " +:+ prefix +:+ ":")
                    error in
       ret []).

End wrapper.

End SyncToKVKeys.

(** ** The request handler *)

Module Handler.

(** What [getConfig] returns. *)
Record config : Type := Config {
  SPLIT_SDK_KEY : string;
  FEATURE_FLAG_NAME : string;
  KV_STORE_NAME : string;
  DEFAULT_USER_KEY : string
}.

(** [new URL(req.url)]: the path and the query parameters, in order. *)
Record url : Type := Url {
  pathname : string;
  searchParams : list (string * string)
}.

(** The pages are rendered from these data; the markup around them is
    fixed. *)
Inductive content : Type :=
  | Plain (text : string)
  | HomePage (cfg : config)
  | TreatmentPage (key featureFlagName treatment : string)
  | StatusPage (keys : list (option value)) (cfg : config).

Record response : Type := Response {
  status : Z;
  content_type : string;
  body : content
}.

(** [url.searchParams.get(name)]: the first value given for the name. *)
Fixpoint searchParams_get (params : list (string * string)) (name : string)
    : option string :=
  match params with
  | [] => None
  | (k, v) :: r => if String.eqb k name then Some v else searchParams_get r name
  end.

(** A line feed, for the messages of more than one line. *)
Definition LF : string := String (ascii_of_N 10) "".

(** [x || fallback] on a parameter that may be absent or empty. *)
Definition or_default (x : option string) (fallback : string) : string :=
  match x with
  | Some s => if String.eqb s "" then fallback else s
  | None => fallback
  end.

Section handler.
(** [new KVStore(name)]: the store, or the error the constructor throws. *)
Variable KVStore_new : string → result KV.KVStore.
(** The SDK: a client built on the storage wrapper for a user key, made
    ready, asked for the treatment of a flag and destroyed. *)
Variable getTreatment : KV.handle → config → string → string → M string.

Definition handleHomePage (u : url) (cfg : config) : M response :=
  ret (Response 200 "text/html; charset=utf-8" (HomePage cfg)).

Definition handleGetTreatment (u : url) (kvStore : KV.handle) (cfg : config)
    : M response :=
  let key := or_default (searchParams_get (searchParams u) "key")
               (DEFAULT_USER_KEY cfg) in
  let featureFlagName :=
    or_default (searchParams_get (searchParams u) "feature-flag")
      (FEATURE_FLAG_NAME cfg) in
  if String.eqb key "" then
    ret (Response 400 "text/plain" (Plain "Error: No user key provided"))
  else if String.prefix "<YOUR" (SPLIT_SDK_KEY cfg) then
    ret (Response 500 "text/plain"
           (Plain ("Error: Harness FME SDK key not configured." +:+ LF +:+ LF
                   +:+ "For local development: Edit src/config.js DEFAULTS"
                   +:+ LF +:+ "For production: Configure the 'split-config' "
                   +:+ "Config Store")))
  else
    try_catch
      (await treatment := getTreatment kvStore cfg key featureFlagName in
       ret (Response 200 "text/html; charset=utf-8"
              (TreatmentPage key featureFlagName treatment)))
      (λ error,
         await _ := console_error "Error getting treatment:" error in
         ret (Response 500 "text/plain"
                (Plain ("Error evaluating feature flag: " +:+ error +:+ LF
                        +:+ LF +:+ "Make sure you have synchronized data "
                        +:+ "first by visiting /sync")))).

(** The object that [kvStore.list] resolved to, with the keys under
    [list]. *)
Definition list_result (keys : list string) : value :=
  JObj [("list", JArr (JStr <$> keys))].

(** [for await (const entry of cursor)]: the elements of an array, the code
    points of a string; a [TypeError] on a value without an iterator, as an
    object is. *)
Definition for_await (cursor : value) : M (list value) :=
  match cursor with
  | JArr l => ret l
  | JStr s => ret (JStr <$> code_points s)
  | _ => throw "TypeError: cursor is not async iterable"
  end.

(** The loop pushes [entry.key] for each entry, in order. *)
Definition handleStatus (kvStore : KV.handle) (cfg : config) : M response :=
  try_catch
    (await listed := KV.list kvStore (KV.ListOptions None (Some 10%nat)) in
     let cursor := list_result listed in
     await entries := for_await cursor in
     await keys :=
       all_map (λ entry, SyncToKVKeys.property entry "key") entries in
     ret (Response 200 "text/html; charset=utf-8" (StatusPage keys cfg)))
    (λ error,
       ret (Response 500 "text/plain"
              (Plain ("Error checking status: " +:+ error)))).

Definition handleRequest (cfg : config) (u : url) : M response :=
  match KVStore_new (KV_STORE_NAME cfg) with
  | Throw error =>
      ret (Response 500 "text/plain"
             (Plain ("Error: KV Store " +:+ String DQ (KV_STORE_NAME cfg)
                     +:+ String DQ " not found. Please create it in the "
                     +:+ "Fastly dashboard." +:+ LF +:+ LF +:+ "Error: "
                     +:+ error)))
  | Ok store =>
      let kvStore := Some store in
      if String.eqb (pathname u) "/" then handleHomePage u cfg
      else if String.eqb (pathname u) "/get-treatment" then
        handleGetTreatment u kvStore cfg
      else if String.eqb (pathname u) "/status" then
        handleStatus kvStore cfg
      else ret (Response 404 "text/plain" (Plain "Not found"))
  end.

End handler.

End Handler.

(** ** The wrapper as a whole *)

(** The seventeen operations of the wrapper, with their arguments. *)
Inductive operation : Type :=
  | Get (key : string)
  | Set_ (key : string) (v : value)
  | GetAndSet (key : string) (v : value)
  | Del (key : string)
  | GetKeysByPrefix (prefix : string)
  | GetMany (keys : list string)
  | Incr (key : string) (increment : option Z)
  | Decr (key : string) (decrement : option Z)
  | ItemContains (key item : string)
  | AddItems (key : string) (items : list string)
  | RemoveItems (key : string) (items : list string)
  | GetItems (key : string)
  | Connect
  | Disconnect
  | PushItems (key : string) (items : list string)
  | PopItems (key : string) (count : Z)
  | GetItemsCount (key : string).

(** What an operation hands back to its caller. *)
Inductive returned : Type :=
  | Undefined
  | Value (v : value)
  | Boolean (b : bool)
  | Keys (l : list string)
  | Values (l : list value)
  | Number (n : Z).

Definition returning {A} (tag : A → returned) (m : M A) : M returned :=
  await a := m in ret (tag a).

Definition call (kvStore : KV.handle) (co : Coercion) (o : operation)
    : M returned :=
  match o with
  | Get key => returning Value (SplitStorageWrapper.get kvStore key)
  | Set_ key v => returning Boolean (SplitStorageWrapper.set kvStore key v)
  | GetAndSet key v =>
      returning Value (SplitStorageWrapper.getAndSet kvStore key v)
  | Del key => returning Boolean (SplitStorageWrapper.del kvStore key)
  | GetKeysByPrefix prefix =>
      returning Keys (SplitStorageWrapper.getKeysByPrefix kvStore prefix)
  | GetMany keys => returning Values (SplitStorageWrapper.getMany kvStore keys)
  | Incr key n => returning Value (SplitStorageWrapper.incr kvStore co key n)
  | Decr key n => returning Value (SplitStorageWrapper.decr kvStore co key n)
  | ItemContains key item =>
      returning Boolean (SplitStorageWrapper.itemContains kvStore key item)
  | AddItems key items =>
      returning (λ _, Undefined) (SplitStorageWrapper.addItems kvStore key items)
  | RemoveItems key items =>
      returning (λ _, Undefined)
        (SplitStorageWrapper.removeItems kvStore key items)
  | GetItems key => returning Values (SplitStorageWrapper.getItems kvStore key)
  | Connect => returning (λ _, Undefined) (SplitStorageWrapper.connect kvStore)
  | Disconnect => returning (λ _, Undefined) SplitStorageWrapper.disconnect
  | PushItems key items =>
      returning (λ _, Undefined) (SplitStorageWrapper.pushItems key items)
  | PopItems key count =>
      returning Values (SplitStorageWrapper.popItems key count)
  | GetItemsCount key =>
      returning Number (SplitStorageWrapper.getItemsCount key)
  end.

(** ** [src/config.js] *)

Module Config.

(** The Secret Store: [store.get(name)] rejects, or resolves to [null] or to
    an entry, whose [plaintext()] returns the secret or throws. *)
Record SecretStore : Type := {
  secret : string → result (option (result string))
}.

(** The Config Store: [store.get(name)] returns a string or [null], or
    throws. *)
Record ConfigStore : Type := {
  entry : string → result (option string)
}.

Definition DEFAULTS : Handler.config :=
  Handler.Config "<YOUR-SERVER-SIDE-SDK-KEY>" "my-feature-flag"
    "split-storage" "user-123".

Section getConfig.
(** [new SecretStore(name)] and [new ConfigStore(name)]: the store, or the
    error the constructor throws. *)
Variable SecretStore_new : string → result SecretStore.
Variable ConfigStore_new : string → result ConfigStore.

(** [configStore?.get(name) || fallback] *)
Definition setting (configStore : option ConfigStore) (name fallback : string)
    : M string :=
  match configStore with
  | None => ret fallback
  | Some store =>
      await found := lift (entry store name) in
      ret (Handler.or_default found fallback)
  end.

Definition getConfig : M Handler.config :=
  await sdkKey :=
    try_catch
      (await secretStore := lift (SecretStore_new "SPLIT_SDK_KEY") in
       await sdkKeySecret := lift (secret secretStore "SPLIT_SDK_KEY") in
       match sdkKeySecret with
       | Some plaintext => lift plaintext
       | None => ret (Handler.SPLIT_SDK_KEY DEFAULTS)
       end)
      (λ error, ret (Handler.SPLIT_SDK_KEY DEFAULTS)) in
  await configStore :=
    try_catch
      (await store := lift (ConfigStore_new "split-config") in
       ret (Some store))
      (λ error, ret None) in
  await featureFlagName :=
    setting configStore "FEATURE_FLAG_NAME"
      (Handler.FEATURE_FLAG_NAME DEFAULTS) in
  await kvStoreName :=
    setting configStore "KV_STORE_NAME" (Handler.KV_STORE_NAME DEFAULTS) in
  await defaultUserKey :=
    setting configStore "DEFAULT_USER_KEY"
      (Handler.DEFAULT_USER_KEY DEFAULTS) in
  ret (Handler.Config sdkKey featureFlagName kvStoreName defaultUserKey).

End getConfig.

End Config.

(** ** The request handler from the event on *)

Module Entry.

Section service.
Variable SecretStore_new : string → result Config.SecretStore.
Variable ConfigStore_new : string → result Config.ConfigStore.
Variable KVStore_new : string → result KV.KVStore.
Variable getTreatment :
  KV.handle → Handler.config → string → string → M string.

(** [handleRequest(event)] from its first line: the configuration is
    loaded, then the request is routed. *)
Definition handleEvent (u : Handler.url) : M Handler.response :=
  await config := Config.getConfig SecretStore_new ConfigStore_new in
  Handler.handleRequest KVStore_new getTreatment config u.

End service.

End Entry.

(** * Vocabulary of the properties *)

(** ** Worlds and reads *)

(** The world after some more lines were written to the console. *)
Definition logged (w : world) (lines : list string) : world :=
  World (kv_data w) (console w ++ lines).

(** The stored value of a key: what the text under the key denotes; [null]
    when the key is absent, the text is empty or it is not JSON. *)
Definition stored_value (w : world) (key : string) : value :=
  match kv_data w !! key with
  | Some text =>
      if String.eqb text "" then JNull else default JNull (JSON.parse text)
  | None => JNull
  end.

(** A read of the key goes through on the Compute binding. *)
Definition readable (kv : KV.handle) (key : string) : bool :=
  match kv with
  | Some store =>
      bool_decide (KV.rejects store (KV.Get key) = None) &&
      bool_decide (KV.rejects store (KV.Text key) = None)
  | None => false
  end.

(** A read of the key goes through on the HTTP API. *)
Definition fetchable (api : API.Service) (key : string) : bool :=
  bool_decide (API.fails api (API.GetKey key) = None).

(** ** Stores that serve a key *)

(** The Compute binding rejects no call on the key. *)
Definition serves (store : KV.KVStore) (key : string) : Prop :=
  KV.rejects store (KV.Get key) = None ∧
  KV.rejects store (KV.Text key) = None ∧
  (∀ text, KV.rejects store (KV.Put key text) = None) ∧
  KV.rejects store (KV.Delete key) = None.

(** The HTTP API fails no request on the key. *)
Definition answers (api : API.Service) (key : string) : Prop :=
  API.fails api (API.GetKey key) = None ∧
  (∀ text, API.fails api (API.PutKey key text) = None) ∧
  API.fails api (API.DeleteKey key) = None.

(** ** Sets *)

(** No element is [SameValueZero]-equal to a later one. *)
Fixpoint duplicate_free (l : list value) : Prop :=
  match l with
  | [] => True
  | x :: r => includes r x = false ∧ duplicate_free r
  end.

(** The key holds the array [old], or nothing at all (the empty set). *)
Definition holds_set (w : world) (key : string) (old : list value) : Prop :=
  stored_value w key = JArr old ∨ (kv_data w !! key = None ∧ old = []).

(** ** Failures *)

(** The first call an operation makes on the store, for the operations that
    start with one call on one key or one listing. *)
Definition first_call (o : operation) : option KV.call :=
  match o with
  | Get key | GetAndSet key _ | Incr key _ | Decr key _ | ItemContains key _
  | AddItems key _ | RemoveItems key _ | GetItems key => Some (KV.Get key)
  | Set_ key v => Some (KV.Put key (JSON.stringify v))
  | Del key => Some (KV.Delete key)
  | GetKeysByPrefix prefix =>
      Some (KV.List (KV.ListOptions (Some prefix) None))
  | _ => None
  end.

(** What an operation returns when that call is rejected. *)
Definition fallback (o : operation) : returned :=
  match o with
  | Get _ | GetAndSet _ _ => Value JNull
  | Set_ _ _ | Del _ | ItemContains _ _ => Boolean false
  | GetKeysByPrefix _ => Keys []
  | GetItems _ => Values []
  | Incr _ n => Value (JNum (0 + default 1 n))
  | Decr _ n => Value (JNum (0 - default 1 n))
  | _ => Undefined
  end.

(** The defaults the specification names: [null], [false], an empty
    collection. *)
Definition safe_default (r : returned) : bool :=
  match r with
  | Value JNull | Boolean false | Keys [] | Values [] => true
  | _ => false
  end.

(** ** Scenarios *)

(** An empty store and an empty console. *)
Definition empty_world : world := World ∅ [].

Definition no_coercion : Coercion :=
  {| plus_other := λ _ _, Throw "TypeError";
     minus_other := λ _ _, Throw "TypeError" |}.

(** A store that rejects every call. *)
Definition unreachable : KV.KVStore :=
  {| KV.rejects := λ _, Some "Error: store unavailable" |}.

(** A store that carries out everything but deletions. *)
Definition undeletable : KV.KVStore :=
  {| KV.rejects := λ c,
       match c with
       | KV.Delete _ => Some "Error: store unavailable"
       | _ => None
       end |}.

(** A store with one counter. *)
Definition counter_world : world := World {[ "hits" := "5" ]} [].

(** A deployment: the store is there, the SDK answers [on]. *)
Definition demo_config : Handler.config :=
  Handler.Config "sdk-key" "my-feature-flag" "split-storage" "user-123".

Definition demo_store (name : string) : result KV.KVStore := Ok KV.reliable.

Definition demo_sdk (kv : KV.handle) (cfg : Handler.config)
    (key flag : string) : M string :=
  ret "on".

(** A store with one set, and one with a text that is not JSON. *)
Definition set_world : world :=
  World {[ "segment" := JSON.stringify (JArr [JStr "a"; JStr "b"]) ]} [].

Definition broken_world : world := World {[ "flag" := "{oops" ]} [].

(** A store that rejects every read and carries out the rest. *)
Definition unreadable : KV.KVStore :=
  {| KV.rejects := λ c,
       match c with
       | KV.Get _ => Some "Error: read failed"
       | _ => None
       end |}.


(** A listing endpoint that answers with the text of [v]. *)
Definition keys_answer (v : value) (prefix : string) : M API.response :=
  ret (API.Response 200 "OK" (JSON.stringify v)).

(** A Secret Store that holds an SDK key. *)
Definition demo_secret_store (name : string) : result Config.SecretStore :=
  Ok {| Config.secret := λ _, Ok (Some (Ok "sdk-key")) |}.

(** ** Measures for the proof of the codec round trip *)

Definition no_digit (s : string) : Prop :=
  match s with String c _ => digit_of c = None | "" => True end.

(** The recursion depth the parser needs on the text of a value. *)
Section need.
Variable need : value → nat.

Fixpoint need_tail (l : list value) : nat :=
  match l with
  | [] => 1
  | x :: r => S (Nat.max (need x) (need_tail r))
  end.

Definition need_member (kv : string * value) : nat := S (need kv.2).

Fixpoint need_mtail (m : list (string * value)) : nat :=
  match m with
  | [] => 1
  | kv :: r => S (Nat.max (need_member kv) (need_mtail r))
  end.
End need.

Fixpoint need (v : value) : nat :=
  match v with
  | JArr (x :: r) => S (Nat.max (need x) (need_tail need r))
  | JObj (kv :: r) => S (Nat.max (need_member need kv) (need_mtail need r))
  | _ => 1
  end.

(** What may follow a printed value for the parser to stop where the
    printer stopped: no digit and no fraction or exponent mark. *)
Definition follow (s : string) : Prop :=
  no_digit s ∧ continues_numeral s = false.

Definition round_trip_at (v : value) : Prop :=
  ∀ f r, (need v ≤ f)%nat → follow r →
         parse_value f (stringify v +:+ r) = Some (v, r).

(** ** What operations write *)

(** The key an operation may write under; the other operations write
    nothing. *)
Definition target (o : operation) : option string :=
  match o with
  | Set_ key _ | GetAndSet key _ | Del key | Incr key _ | Decr key _
  | AddItems key _ | RemoveItems key _ => Some key
  | _ => None
  end.

(** A computation keeps a property of the world: it holds after the
    computation, returned or thrown, when it held before. *)
Definition preserves {A} (P : world → Prop) (m : M A) : Prop :=
  ∀ w, P w → P (m w).2.

(** Every stored text is JSON. *)
Definition all_json (w : world) : Prop :=
  ∀ key text, kv_data w !! key = Some text → is_Some (JSON.parse text).

(** What the spread accepts: arrays and strings. *)
Definition iterable (v : value) : bool :=
  match v with
  | JArr _ | JStr _ => true
  | _ => false
  end.

(** The answer of the listing endpoint that gives each key in an object,
    and the one that gives each key as a string. *)
Definition keys_as_objects (keys : list string) : value :=
  JObj [("data", JArr ((λ k, JObj [("key", JStr k)]) <$> keys))].

Definition keys_as_strings (keys : list string) : value :=
  JObj [("data", JArr (JStr <$> keys))].

(** ** Two wrappers, one store *)

(** Two computations agree at a world: they return or throw the same, and
    leave the same stored texts. *)
Definition agree {A} (m1 m2 : M A) (w : world) : Prop :=
  (m1 w).1 = (m2 w).1 ∧ kv_data (m1 w).2 = kv_data (m2 w).2.


(** ** Configurations *)

(** No SDK key can be had from the Secret Store: the store is not there,
    the lookup rejects, there is no such secret, or its plain text cannot
    be read. *)
Definition secret_unavailable
    (SecretStore_new : string → result Config.SecretStore) : Prop :=
  match SecretStore_new "SPLIT_SDK_KEY" with
  | Throw _ => True
  | Ok store =>
      match Config.secret store "SPLIT_SDK_KEY" with
      | Throw _ | Ok None | Ok (Some (Throw _)) => True
      | Ok (Some (Ok _)) => False
      end
  end.

(** The Config Store, when it is there, answers every lookup. *)
Definition config_readable
    (ConfigStore_new : string → result Config.ConfigStore) : Prop :=
  ∀ store name, ConfigStore_new "split-config" = Ok store →
    ∃ found, Config.entry store name = Ok found.

(** Neither store is there, as in local development. *)
Definition no_secret_store (name : string) : result Config.SecretStore :=
  Throw "Error: no such secret store".

Definition no_config_store (name : string) : result Config.ConfigStore :=
  Throw "Error: no such config store".

(** * Properties *)

(** ** The codec round trip *)

Lemma append_cons c (a b : string) : String c a +:+ b = String c (a +:+ b).
Proof. reflexivity. Qed.

Lemma append_nil (b : string) : "" +:+ b = b.
Proof. reflexivity. Qed.

Lemma append_assoc (a b c : string) : (a +:+ b) +:+ c = a +:+ (b +:+ c).
Proof.
  induction a as [|x a IH]; [done |]. rewrite !append_cons. by f_equal.
Qed.

Ltac norm_append :=
  repeat (rewrite append_assoc || rewrite append_cons || rewrite append_nil).

Lemma read_digits_uint d r :
  no_digit r → read_digits (uint_string d +:+ r) = (d, r).
Proof.
  intros Hr.
  induction d; simpl; rewrite ?append_cons; simpl; try (rewrite IHd; reflexivity).
  rewrite append_nil. destruct r as [|c r]; simpl in *; [done | by rewrite Hr].
Qed.

(** [N.to_uint] never yields an empty numeral nor a leading zero. *)
Lemma unorm_head d :
  Decimal.unorm d = Decimal.D0 Decimal.Nil ∨
  (Decimal.unorm d ≠ Decimal.Nil ∧ ∀ d', Decimal.unorm d ≠ Decimal.D0 d').
Proof. induction d; simpl; auto; right; split; intros; discriminate. Qed.

Lemma to_uint_head n :
  N.to_uint n = Decimal.D0 Decimal.Nil ∨
  (N.to_uint n ≠ Decimal.Nil ∧ ∀ d', N.to_uint n ≠ Decimal.D0 d').
Proof.
  assert (N.to_uint n = Decimal.unorm (N.to_uint n)) as ->.
  { by rewrite <- DecimalN.Unsigned.to_of, DecimalN.Unsigned.of_to. }
  apply unorm_head.
Qed.

Lemma parse_nat_print n r :
  no_digit r → continues_numeral r = false →
  parse_nat (uint_string (N.to_uint n) +:+ r) = Some (n, r).
Proof.
  intros Hd Hc. unfold parse_nat. rewrite read_digits_uint by done.
  destruct (to_uint_head n) as [H0 | [Hnil Hz]].
  - rewrite H0, Hc. f_equal. f_equal.
    rewrite <- (DecimalN.Unsigned.of_to n), H0. reflexivity.
  - pose proof (DecimalN.Unsigned.of_to n) as Hn.
    destruct (N.to_uint n) as [|d|d|d|d|d|d|d|d|d|d] eqn:E;
      try (rewrite Hc, Hn; reflexivity).
    + done.
    + by destruct (Hz d).
Qed.

Lemma parse_escape_char c k :
  parse_string_body (escape_char c +:+ k) =
  '(t, r') ← parse_string_body k; Some (String c t, r').
Proof.
  destruct c as [[] [] [] [] [] [] [] []]; reflexivity.
Qed.

Lemma parse_string_escape s r :
  parse_string_body (escape s +:+ String DQ r) = Some (s, r).
Proof.
  induction s as [|c s IH]; [reflexivity |].
  change (escape (String c s)) with (escape_char c +:+ escape s).
  rewrite append_assoc, parse_escape_char, IH. reflexivity.
Qed.

Lemma follow_nil : follow "".
Proof. by split. Qed.

Lemma follow_elems_tail f l r : follow (elems_tail f l +:+ r).
Proof. destruct l; by split. Qed.

Lemma follow_membs_tail f m r : follow (membs_tail f m +:+ r).
Proof. destruct m; by split. Qed.

Lemma uint_string_head d :
  d ≠ Decimal.Nil →
  ∃ c t, uint_string d = String c t ∧ is_Some (digit_of c).
Proof. destruct d; [done | ..]; intros _; simpl; eauto. Qed.

Lemma to_uint_nonnil n : N.to_uint n ≠ Decimal.Nil.
Proof. destruct (to_uint_head n) as [-> | []]; done. Qed.

(** A printed value starts with a character that opens a value. *)
Lemma stringify_head v :
  ∃ c t, stringify v = String c t ∧ is_ws c = false ∧
         Ascii.eqb "]" c = false ∧ Ascii.eqb "}" c = false.
Proof.
  destruct v as [|[]|[|p|p]|s|[|x l]|[|kv m]];
    try (eexists _, _; split; [reflexivity | done]).
  unfold stringify, number_string.
  destruct (uint_string_head (N.to_uint (N.pos p)) (to_uint_nonnil _))
    as (c & t & -> & Hc).
  exists c, t. split; [done |].
  destruct c as [[] [] [] [] [] [] [] []]; try done; by destruct Hc.
Qed.

Lemma parse_value_digits d f r :
  d ≠ Decimal.Nil →
  parse_value (S f) (uint_string d +:+ r) =
  '(n, r') ← parse_nat (uint_string d +:+ r); Some (JNum (Z.of_N n), r').
Proof. destruct d; [done | ..]; reflexivity. Qed.

Lemma parse_value_number n f r :
  follow r → parse_value (S f) (number_string n +:+ r) = Some (JNum n, r).
Proof.
  intros [Hd Hc]. destruct n as [|p|p]; unfold number_string.
  - change "0" with (uint_string (N.to_uint 0)).
    rewrite parse_value_digits, parse_nat_print; done.
  - rewrite parse_value_digits, parse_nat_print by (done || apply to_uint_nonnil).
    reflexivity.
  - rewrite append_cons.
    change (parse_value (S f) (String "-" ?t)) with
      ('(n, r') ← parse_nat t; Some (JNum (- Z.of_N n), r')).
    rewrite parse_nat_print by done. reflexivity.
Qed.

Lemma parse_value_string s f r :
  parse_value (S f) (quote s +:+ r) = Some (JStr s, r).
Proof.
  unfold quote. norm_append.
  change (parse_value (S f) (String DQ ?t)) with
    ('(x, r') ← parse_string_body t; Some (JStr x, r')).
  rewrite parse_string_escape. reflexivity.
Qed.

Lemma expect_stringify c v k :
  (c = "]"%char ∨ c = "}"%char) →
  expect c (skip_ws (stringify v +:+ k)) = None.
Proof.
  intros Hc. destruct (stringify_head v) as (h & t & -> & Hw & H1 & H2).
  rewrite append_cons. simpl. rewrite Hw. simpl.
  destruct Hc as [-> | ->]; [by rewrite H1 | by rewrite H2].
Qed.

Lemma need_pos v : (1 ≤ need v)%nat.
Proof. destruct v as [| | | |[|x l]|[|kv m]]; simpl; lia. Qed.

Lemma parse_elems_tail_print l :
  Forall round_trip_at l →
  ∀ f r, (need_tail need l ≤ f)%nat →
         parse_elems_tail f (elems_tail stringify l +:+ r) = Some (l, r).
Proof.
  induction 1 as [|x l Hx _ IH]; intros f r Hf; simpl in Hf;
    (destruct f as [|f]; [lia |]).
  - reflexivity.
  - simpl elems_tail. norm_append.
    change (parse_elems_tail (S f) (String "," ?t)) with
      ('(y, r1) ← parse_value f t;
       '(l', r2) ← parse_elems_tail f r1; Some (y :: l', r2)).
    rewrite Hx by (lia || apply follow_elems_tail). simpl.
    rewrite IH by lia. reflexivity.
Qed.

Lemma parse_member_print kv f r :
  round_trip_at kv.2 → (need_member need kv ≤ f)%nat → follow r →
  parse_member f (member stringify kv +:+ r) = Some (kv, r).
Proof.
  destruct kv as [k x]. unfold need_member, member, quote. simpl.
  intros Hx Hf Hr. destruct f as [|f]; [lia |]. norm_append.
  change (parse_member (S f) (String DQ ?t)) with
    ('(k', r1) ← parse_string_body t;
     r2 ← expect ":" (skip_ws r1);
     '(y, r3) ← parse_value f r2; Some ((k', y), r3)).
  rewrite parse_string_escape. simpl.
  rewrite Hx by (lia || done). reflexivity.
Qed.

Lemma parse_membs_tail_print m :
  Forall (λ kv, round_trip_at kv.2) m →
  ∀ f r, (need_mtail need m ≤ f)%nat →
         parse_membs_tail f (membs_tail stringify m +:+ r) = Some (m, r).
Proof.
  induction 1 as [|kv m Hkv _ IH]; intros f r Hf; simpl in Hf;
    (destruct f as [|f]; [lia |]).
  - reflexivity.
  - simpl membs_tail. norm_append.
    change (parse_membs_tail (S f) (String "," ?t)) with
      ('(y, r1) ← parse_member f t;
       '(m', r2) ← parse_membs_tail f r1; Some (y :: m', r2)).
    rewrite parse_member_print by (done || lia || apply follow_membs_tail).
    simpl. rewrite IH by lia. reflexivity.
Qed.

Lemma parse_value_print (v : value) : round_trip_at v.
Proof.
  induction v as [|b|n|s|l IH|m IH] using value_ind; intros f r Hf Hr;
    (destruct f as [|f];
     [match type of Hf with (need ?v ≤ _)%nat =>
        pose proof (need_pos v) end; lia |]).
  - reflexivity.
  - destruct b; reflexivity.
  - by apply parse_value_number.
  - apply parse_value_string.
  - destruct l as [|x l]; [reflexivity |].
    apply Forall_cons in IH as [Hx Hl]. simpl in Hf.
    simpl stringify. norm_append.
    change (parse_value (S f) (String "[" ?t)) with
      (match expect "]" (skip_ws t) with
       | Some r' => Some (JArr [], r')
       | None =>
           '(y, r1) ← parse_value f t;
           '(l', r2) ← parse_elems_tail f r1; Some (JArr (y :: l'), r2)
       end).
    rewrite expect_stringify by auto.
    rewrite Hx by (lia || apply follow_elems_tail). simpl.
    rewrite parse_elems_tail_print by (done || lia). reflexivity.
  - destruct m as [|kv m]; [reflexivity |].
    apply Forall_cons in IH as [Hx Hm]. simpl in Hf.
    simpl stringify. norm_append.
    change (parse_value (S f) (String "{" ?t)) with
      (match expect "}" (skip_ws t) with
       | Some r' => Some (JObj [], r')
       | None =>
           '(y, r1) ← parse_member f t;
           '(m', r2) ← parse_membs_tail f r1; Some (JObj (y :: m'), r2)
       end).
    assert (∀ k, expect "}" (skip_ws (member stringify kv +:+ k)) = None)
      as -> by (by destruct kv).
    rewrite parse_member_print by (done || lia || apply follow_membs_tail).
    simpl. rewrite parse_membs_tail_print by (done || lia). reflexivity.
Qed.

Lemma append_nil_r (a : string) : a +:+ "" = a.
Proof.
  induction a as [|c a IH]; [done |]. rewrite append_cons. by f_equal.
Qed.

Lemma length_append (a b : string) :
  String.length (a +:+ b) = (String.length a + String.length b)%nat.
Proof.
  induction a as [|c a IH]; [done |]. rewrite append_cons. simpl. by rewrite IH.
Qed.

Lemma need_tail_length l :
  Forall (λ v, (need v ≤ String.length (stringify v))%nat) l →
  (need_tail need l ≤ String.length (elems_tail stringify l))%nat.
Proof.
  induction 1 as [|x l Hx _ IH]; simpl; [lia |]. rewrite length_append. lia.
Qed.

Lemma need_mtail_length m :
  Forall (λ kv, (need kv.2 ≤ String.length (stringify kv.2))%nat) m →
  (need_mtail need m ≤ String.length (membs_tail stringify m))%nat.
Proof.
  induction 1 as [|kv m Hx _ IH]; simpl; [lia |].
  unfold need_member, member, quote. rewrite !length_append. simpl. lia.
Qed.

Lemma need_length (v : value) : (need v ≤ String.length (stringify v))%nat.
Proof.
  induction v as [|b|n|s|l IH|m IH] using value_ind; simpl; try lia.
  - by destruct b; simpl; lia.
  - destruct (stringify_head (JNum n)) as (c & t & E & _).
    simpl in E. rewrite E. simpl. lia.
  - destruct l as [|x l]; simpl; [lia |].
    apply Forall_cons in IH as [Hx Hl]. apply need_tail_length in Hl.
    rewrite length_append. lia.
  - destruct m as [|kv m]; simpl; [lia |].
    apply Forall_cons in IH as [Hx Hm]. apply need_mtail_length in Hm.
    unfold need_member, member, quote. rewrite !length_append. simpl. lia.
Qed.

(** [JSON.parse (JSON.stringify v)] is [v]. *)
Theorem parse_stringify (v : value) : parse (stringify v) = Some v.
Proof.
  unfold parse.
  rewrite <- (append_nil_r (stringify v)) at 2.
  rewrite parse_value_print; [done | | apply follow_nil].
  pose proof (need_length v). lia.
Qed.

(** A JSON text is never the empty string. *)
Lemma stringify_nonempty (v : value) : stringify v ≠ "".
Proof. destruct (stringify_head v) as (c & t & -> & _). done. Qed.

(** ** The parser never runs out of fuel *)

Lemma skip_ws_length s : (String.length (skip_ws s) ≤ String.length s)%nat.
Proof. induction s as [|c s IH]; simpl; [lia |]. destruct (is_ws c); simpl; lia. Qed.

Lemma expect_length c s r :
  expect c s = Some r → String.length s = S (String.length r).
Proof.
  destruct s as [|c' s]; simpl; [done |].
  destruct (Ascii.eqb c c'); [| done]. by intros [= ->].
Qed.

Lemma strip_length word s r :
  strip word s = Some r → (String.length r ≤ String.length s)%nat.
Proof.
  revert s. induction word as [|c word IH]; intros s; simpl.
  - by intros [= ->].
  - destruct (expect c s) as [r0|] eqn:E; simpl; [| done].
    intros H. apply IH in H. apply expect_length in E. lia.
Qed.

Lemma strip_shorter c word s r :
  strip (String c word) s = Some r → (String.length r < String.length s)%nat.
Proof.
  simpl. destruct (expect c s) as [r0|] eqn:E; simpl; [| done].
  intros H. apply strip_length in H. apply expect_length in E. lia.
Qed.

Lemma read_digits_length s d r :
  read_digits s = (d, r) →
  (String.length r ≤ String.length s)%nat ∧
  (d ≠ Decimal.Nil → (String.length r < String.length s)%nat).
Proof.
  revert d r. induction s as [|c s IH]; intros d r; simpl.
  - intros [= <- <-]. split; [simpl; lia | done].
  - destruct (digit_of c) as [mk|].
    + destruct (read_digits s) as [d0 r0]. intros [= <- <-].
      destruct (IH d0 r0 eq_refl) as [H _]. split; intros; lia.
    + intros [= <- <-]. split; [simpl; lia | done].
Qed.

Lemma parse_nat_length s n r :
  parse_nat s = Some (n, r) → (String.length r < String.length s)%nat.
Proof.
  unfold parse_nat. destruct (read_digits s) as [d r0] eqn:E.
  apply read_digits_length in E as [_ E]. intros H.
  assert (d ≠ Decimal.Nil ∧ r = r0) as [Hd ->].
  { destruct d as [|[] |d|d|d|d|d|d|d|d|d]; try done;
      destruct (continues_numeral r0); try done;
      injection H as _ <-; done. }
  by apply E.
Qed.

Lemma parse_string_body_length s :
  ∀ t r, parse_string_body s = Some (t, r) →
         (String.length r < String.length s)%nat.
Proof.
  assert (∀ n s t r, (String.length s ≤ n)%nat →
            parse_string_body s = Some (t, r) →
            (String.length r < String.length s)%nat) as H;
    [| intros t r; by apply (H (String.length s))].
  clear s. intros n. induction n as [|n IH]; intros s t r Hn.
  { destruct s; [done | simpl in Hn; lia]. }
  destruct s as [|c s]; [done |]. simpl in Hn.
  assert (∀ k, (String.length k ≤ n)%nat → ∀ x,
            ('(t0, r') ← parse_string_body k; Some (String x t0, r')) =
              Some (t, r) →
            (String.length r < String.length k)%nat) as Hpush.
  { intros k Hk x. destruct (parse_string_body k) as [[t0 r0]|] eqn:E; [| done].
    simpl. intros [= _ <-]. by eapply IH. }
  simpl. destruct (N_of_ascii c =? 34)%N.
  { intros [= _ <-]. simpl. lia. }
  destruct (N_of_ascii c =? 92)%N.
  - destruct s as [|e s1]; [done |]. simpl in Hn.
    destruct e as [[] [] [] [] [] [] [] []]; simpl; try done;
      try (intros H; apply Hpush in H; simpl; lia).
    destruct s1 as [|h1 [|h2 [|h3 [|h4 s2]]]]; try done. simpl in Hn.
    destruct (unicode_escape h1 h2 h3 h4); [| done]. simpl.
    intros H. apply Hpush in H; simpl; lia.
  - destruct (N_of_ascii c <? 32)%N; [done |].
    intros H. apply Hpush in H; simpl; lia.
Qed.

(** One step of each of the four parsing functions. *)
Lemma parse_value_step f s :
  parse_value (S f) s =
  let s := skip_ws s in
  match strip "null" s with
  | Some r => Some (JNull, r)
  | None =>
  match strip "true" s with
  | Some r => Some (JBool true, r)
  | None =>
  match strip "false" s with
  | Some r => Some (JBool false, r)
  | None =>
  match expect DQ s with
  | Some r => '(t, r') ← parse_string_body r; Some (JStr t, r')
  | None =>
  match expect "[" s with
  | Some r =>
      match expect "]" (skip_ws r) with
      | Some r' => Some (JArr [], r')
      | None =>
          '(x, r1) ← parse_value f r;
          '(l, r2) ← parse_elems_tail f r1;
          Some (JArr (x :: l), r2)
      end
  | None =>
  match expect "{" s with
  | Some r =>
      match expect "}" (skip_ws r) with
      | Some r' => Some (JObj [], r')
      | None =>
          '(kv, r1) ← parse_member f r;
          '(m, r2) ← parse_membs_tail f r1;
          Some (JObj (kv :: m), r2)
      end
  | None =>
  match expect "-" s with
  | Some r => '(n, r') ← parse_nat r; Some (JNum (- Z.of_N n), r')
  | None => '(n, r') ← parse_nat s; Some (JNum (Z.of_N n), r')
  end end end end end end end.
Proof. reflexivity. Qed.

Lemma parse_elems_tail_step f s :
  parse_elems_tail (S f) s =
  let s := skip_ws s in
  match expect "]" s with
  | Some r => Some ([], r)
  | None =>
      r ← expect "," s;
      '(x, r1) ← parse_value f r;
      '(l, r2) ← parse_elems_tail f r1;
      Some (x :: l, r2)
  end.
Proof. reflexivity. Qed.

Lemma parse_member_step f s :
  parse_member (S f) s =
  r ← expect DQ (skip_ws s);
  '(k, r1) ← parse_string_body r;
  r2 ← expect ":" (skip_ws r1);
  '(x, r3) ← parse_value f r2;
  Some ((k, x), r3).
Proof. reflexivity. Qed.

Lemma parse_membs_tail_step f s :
  parse_membs_tail (S f) s =
  let s := skip_ws s in
  match expect "}" s with
  | Some r => Some ([], r)
  | None =>
      r ← expect "," s;
      '(kv, r1) ← parse_member f r;
      '(m, r2) ← parse_membs_tail f r1;
      Some (kv :: m, r2)
  end.
Proof. reflexivity. Qed.

(** Case analysis on the next test of a parsing step, keeping what each
    successful test says about lengths. *)
Ltac length_facts :=
  repeat match goal with
    | H : expect _ _ = Some _ |- _ => apply expect_length in H
    | H : strip (String _ _) _ = Some _ |- _ => apply strip_shorter in H
    | H : parse_nat _ = Some _ |- _ => apply parse_nat_length in H
    | H : parse_string_body _ = Some _ |- _ =>
        apply parse_string_body_length in H
    end;
  repeat match goal with
    | |- context [skip_ws ?s] =>
        lazymatch goal with
        | _ : (String.length (skip_ws s) ≤ _)%nat |- _ => fail
        | _ => pose proof (skip_ws_length s)
        end
    | _ : context [skip_ws ?s] |- _ =>
        lazymatch goal with
        | _ : (String.length (skip_ws s) ≤ _)%nat |- _ => fail
        | _ => pose proof (skip_ws_length s)
        end
    end.

Ltac next_test H :=
  match type of H with
  | context [match ?x with Some _ => _ | None => _ end] =>
      let E := fresh "E" in destruct x as [?|] eqn:E
  | context [mbind _ ?x] =>
      let E := fresh "E" in destruct x as [?|] eqn:E; simpl in H
  | context [let '(_, _) := ?p in _] => destruct p; simpl in H
  end.

(** Every successful parse consumes at least one character. *)
Lemma parse_progress f :
  (∀ s v r, parse_value f s = Some (v, r) →
            (String.length r < String.length s)%nat) ∧
  (∀ s l r, parse_elems_tail f s = Some (l, r) →
            (String.length r < String.length s)%nat) ∧
  (∀ s kv r, parse_member f s = Some (kv, r) →
             (String.length r < String.length s)%nat) ∧
  (∀ s m r, parse_membs_tail f s = Some (m, r) →
            (String.length r < String.length s)%nat).
Proof.
  induction f as [|f (IHv & IHe & IHm & IHt)]; [by repeat split |].
  repeat split; intros s x r H.
  - rewrite parse_value_step in H. cbv zeta in H.
    repeat next_test H; try discriminate;
      repeat match goal with p : _ * _ |- _ => destruct p end;
      simpl in H; simplify_eq;
      repeat match goal with
        | H : parse_value f _ = Some _ |- _ => apply IHv in H
        | H : parse_elems_tail f _ = Some _ |- _ => apply IHe in H
        | H : parse_member f _ = Some _ |- _ => apply IHm in H
        | H : parse_membs_tail f _ = Some _ |- _ => apply IHt in H
        end;
      length_facts; lia.
  - rewrite parse_elems_tail_step in H. cbv zeta in H.
    repeat next_test H; try discriminate;
      repeat match goal with p : _ * _ |- _ => destruct p end;
      simpl in H; simplify_eq;
      repeat match goal with
        | H : parse_value f _ = Some _ |- _ => apply IHv in H
        | H : parse_elems_tail f _ = Some _ |- _ => apply IHe in H
        end;
      length_facts; lia.
  - rewrite parse_member_step in H.
    repeat next_test H; try discriminate;
      repeat match goal with p : _ * _ |- _ => destruct p end;
      simpl in H; simplify_eq;
      repeat match goal with
        | H : parse_value f _ = Some _ |- _ => apply IHv in H
        end;
      length_facts; lia.
  - rewrite parse_membs_tail_step in H. cbv zeta in H.
    repeat next_test H; try discriminate;
      repeat match goal with p : _ * _ |- _ => destruct p end;
      simpl in H; simplify_eq;
      repeat match goal with
        | H : parse_member f _ = Some _ |- _ => apply IHm in H
        | H : parse_membs_tail f _ = Some _ |- _ => apply IHt in H
        end;
      length_facts; lia.
Qed.

(** With more fuel than the text is long, the amount of fuel does not
    matter: the parser stops because the text ends, never because the fuel
    does. *)
Lemma parse_fuel f :
  ∀ f' s, (String.length s < f)%nat → (String.length s < f')%nat →
    parse_value f s = parse_value f' s ∧
    parse_elems_tail f s = parse_elems_tail f' s ∧
    parse_member f s = parse_member f' s ∧
    parse_membs_tail f s = parse_membs_tail f' s.
Proof.
  induction f as [|f IH]; intros f' s Hf Hf'; [lia |].
  destruct f' as [|f']; [lia |].
  destruct (parse_progress f') as (Pv & Pe & Pm & Pt).
  assert (∀ r, (String.length r < String.length s)%nat →
            parse_value f r = parse_value f' r ∧
            parse_elems_tail f r = parse_elems_tail f' r ∧
            parse_member f r = parse_member f' r ∧
            parse_membs_tail f r = parse_membs_tail f' r) as Hsame.
  { intros r Hr. apply IH; lia. }
  pose proof (skip_ws_length s) as Hws.
  repeat split.
  - rewrite !parse_value_step. cbv zeta.
    destruct (strip "null" (skip_ws s)); [done |].
    destruct (strip "true" (skip_ws s)); [done |].
    destruct (strip "false" (skip_ws s)); [done |].
    destruct (expect DQ (skip_ws s)); [done |].
    destruct (expect "[" (skip_ws s)) as [r|] eqn:E1.
    { apply expect_length in E1. destruct (expect "]" (skip_ws r)); [done |].
      rewrite (proj1 (Hsame r ltac:(lia))).
      destruct (parse_value f' r) as [[x r1]|] eqn:E2; [| done]. simpl.
      apply Pv in E2.
      by rewrite (proj1 (proj2 (Hsame r1 ltac:(lia)))). }
    destruct (expect "{" (skip_ws s)) as [r|] eqn:E2; [| done].
    apply expect_length in E2. destruct (expect "}" (skip_ws r)); [done |].
    rewrite (proj1 (proj2 (proj2 (Hsame r ltac:(lia))))).
    destruct (parse_member f' r) as [[kv r1]|] eqn:E3; [| done]. simpl.
    apply Pm in E3.
    by rewrite (proj2 (proj2 (proj2 (Hsame r1 ltac:(lia))))).
  - rewrite !parse_elems_tail_step. cbv zeta.
    destruct (expect "]" (skip_ws s)); [done |].
    destruct (expect "," (skip_ws s)) as [r|] eqn:E1; [| done]. simpl.
    apply expect_length in E1.
    rewrite (proj1 (Hsame r ltac:(lia))).
    destruct (parse_value f' r) as [[x r1]|] eqn:E2; [| done]. simpl.
    apply Pv in E2.
    by rewrite (proj1 (proj2 (Hsame r1 ltac:(lia)))).
  - rewrite !parse_member_step.
    destruct (expect DQ (skip_ws s)) as [r|] eqn:E1; [| done]. simpl.
    apply expect_length in E1.
    destruct (parse_string_body r) as [[k r1]|] eqn:E2; [| done]. simpl.
    apply parse_string_body_length in E2.
    pose proof (skip_ws_length r1).
    destruct (expect ":" (skip_ws r1)) as [r2|] eqn:E3; [| done]. simpl.
    apply expect_length in E3.
    by rewrite (proj1 (Hsame r2 ltac:(lia))).
  - rewrite !parse_membs_tail_step. cbv zeta.
    destruct (expect "}" (skip_ws s)); [done |].
    destruct (expect "," (skip_ws s)) as [r|] eqn:E1; [| done]. simpl.
    apply expect_length in E1.
    rewrite (proj1 (proj2 (proj2 (Hsame r ltac:(lia))))).
    destruct (parse_member f' r) as [[kv r1]|] eqn:E2; [| done]. simpl.
    apply Pm in E2.
    by rewrite (proj2 (proj2 (proj2 (Hsame r1 ltac:(lia))))).
Qed.

(** [JSON.parse] gives every text all the fuel it can use. *)
Theorem parse_enough_fuel (text : string) (fuel : nat) :
  (String.length text < fuel)%nat →
  parse_value fuel text = parse_value (S (S (String.length text))) text.
Proof. intros H. apply parse_fuel; lia. Qed.

(** ** What a read observes *)

Lemma logged_nil w : logged w [] = w.
Proof. destruct w. unfold logged. simpl. by rewrite app_nil_r. Qed.

Lemma logged_logged w l1 l2 : logged (logged w l1) l2 = logged w (l1 ++ l2).
Proof. unfold logged. simpl. by rewrite app_assoc. Qed.

Section reads.
Variable kvStore : KV.handle.
Variable api : API.Service.

Lemma getValue_observes key w :
  ∃ lines,
    SplitStorageWrapper.getValue kvStore key w =
    (Ok (if readable kvStore key then stored_value w key else JNull),
     logged w lines).
Proof.
  unfold SplitStorageWrapper.getValue, try_catch, bind, KV.get, KV.text,
    KV.invoke, readable, stored_value, JSON_parse, console_error, ret, throw.
  destruct kvStore as [store|]; simpl; [| by eexists].
  destruct (KV.rejects store (KV.Get key)) as [e|]; simpl; [by eexists |].
  destruct (kv_data w !! key) as [text|]; simpl.
  - destruct (KV.rejects store (KV.Text key)) as [e|]; simpl; [by eexists |].
    destruct (String.eqb text ""); simpl;
      [exists []; by rewrite logged_nil |].
    destruct (JSON.parse text); simpl; [| by eexists].
    exists []. by rewrite logged_nil.
  - exists []. rewrite logged_nil. by destruct (bool_decide _).
Qed.

Lemma remote_getValue_observes key w :
  ∃ lines,
    SyncToKV.getValue api key w =
    (Ok (if fetchable api key then stored_value w key else JNull),
     logged w lines).
Proof.
  unfold SyncToKV.getValue, try_catch, bind, API.fetch, API.serve,
    fetchable, stored_value, JSON_parse, console_error, ret, throw.
  destruct (API.fails api (API.GetKey key)) as [[e|st tx]|]; simpl.
  - by eexists.
  - destruct (st =? 404); simpl; [exists []; by rewrite logged_nil |].
    destruct (API.ok _); simpl; [| by eexists].
    exists []. by rewrite logged_nil.
  - destruct (kv_data w !! key) as [text|]; simpl;
      [| exists []; by rewrite logged_nil].
    destruct (String.eqb text ""); simpl;
      [exists []; by rewrite logged_nil |].
    destruct (JSON.parse text); simpl; [| by eexists].
    exists []. by rewrite logged_nil.
Qed.
End reads.

(** ** Batch reads *)

(** A family of reads that only write to the console can be run in any
    order: each returns what it observes in the initial world, and
    [Promise.all] collects the results by index. *)
Lemma all_map_reads {A} (f : string → M A) (obs : world → string → A) :
  (∀ w lines key, obs (logged w lines) key = obs w key) →
  (∀ key w, ∃ lines, f key w = (Ok (obs w key), logged w lines)) →
  ∀ keys w, ∃ lines,
    all_map f keys w = (Ok (obs w <$> keys), logged w lines).
Proof.
  intros Hobs Hf keys. induction keys as [|key keys IH]; intros w.
  - exists []. by rewrite logged_nil.
  - destruct (Hf key w) as [l1 H1].
    destruct (IH (logged w l1)) as [l2 H2].
    exists (l1 ++ l2). simpl. unfold bind. rewrite H1, H2. unfold ret.
    rewrite logged_logged. do 3 f_equal.
    apply list_fmap_ext. intros _ k _. apply Hobs.
Qed.

Lemma getMany_observes kvStore keys w :
  ∃ lines,
    SplitStorageWrapper.getMany kvStore keys w =
    (Ok ((λ key, if readable kvStore key then stored_value w key else JNull)
           <$> keys),
     logged w lines).
Proof.
  destruct (all_map_reads (SplitStorageWrapper.getValue kvStore)
              (λ w key, if readable kvStore key then stored_value w key
                        else JNull)
              ltac:(done) (getValue_observes kvStore) keys w) as [lines H].
  exists lines. unfold SplitStorageWrapper.getMany, try_catch, bind.
  by rewrite H.
Qed.

Lemma remote_getMany_observes api keys w :
  ∃ lines,
    SyncToKV.getMany api keys w =
    (Ok ((λ key, if fetchable api key then stored_value w key else JNull)
           <$> keys),
     logged w lines).
Proof.
  destruct (all_map_reads (SyncToKV.getValue api)
              (λ w key, if fetchable api key then stored_value w key
                        else JNull)
              ltac:(done) (remote_getValue_observes api) keys w) as [lines H].
  exists lines. unfold SyncToKV.getMany, bind. by rewrite H.
Qed.

(** C5.  [getMany] returns a list as long as the list of keys whose i-th
    element is the stored value of the i-th key, and [null] when that key is
    absent or its read fails; this holds for the wrapper over the Compute
    binding and for the wrapper over the HTTP API.  The reads change no
    stored text, so no order of completion changes a result. *)
Theorem getMany_aligned
    (kvStore : KV.handle) (api : API.Service) (keys : list string) (w : world) :
  ∃ results remote w1 w2,
    SplitStorageWrapper.getMany kvStore keys w = (Ok results, w1) ∧
    SyncToKV.getMany api keys w = (Ok remote, w2) ∧
    kv_data w1 = kv_data w ∧ kv_data w2 = kv_data w ∧
    length results = length keys ∧ length remote = length keys ∧
    ∀ (i : nat) (key : string), keys !! i = Some key →
      results !! i =
        Some (if readable kvStore key then stored_value w key else JNull) ∧
      remote !! i =
        Some (if fetchable api key then stored_value w key else JNull).
Proof.
  destruct (getMany_observes kvStore keys w) as [l1 H1].
  destruct (remote_getMany_observes api keys w) as [l2 H2].
  eexists _, _, _, _. split; [exact H1 |]. split; [exact H2 |].
  repeat split; try by rewrite length_fmap.
  - rewrite list_lookup_fmap. by rewrite H.
  - rewrite list_lookup_fmap. by rewrite H.
Qed.

(** An absent key, an empty text and a malformed text all read as [null]. *)
Lemma stored_value_absent w key :
  kv_data w !! key = None → stored_value w key = JNull.
Proof. unfold stored_value. by intros ->. Qed.

Lemma stored_value_stringify w key v :
  kv_data w !! key = Some (JSON.stringify v) → stored_value w key = v.
Proof.
  unfold stored_value. intros ->.
  destruct (String.eqb_spec (JSON.stringify v) "") as [E|_].
  - by destruct (stringify_nonempty v).
  - by rewrite parse_stringify.
Qed.

(** ** Queue operations *)

(** C6.  In both wrappers the queue operations do nothing: [pushItems]
    returns nothing, [popItems] returns the empty list, [getItemsCount]
    returns 0, and the world after each is the world before it. *)
Theorem queue_operations_are_noops
    (key : string) (items : list string) (count : Z) (w : world) :
  SplitStorageWrapper.pushItems key items w = (Ok tt, w) ∧
  SplitStorageWrapper.popItems key count w = (Ok [], w) ∧
  SplitStorageWrapper.getItemsCount key w = (Ok 0, w) ∧
  SyncToKV.pushItems key items w = (Ok tt, w) ∧
  SyncToKV.popItems key count w = (Ok [], w) ∧
  SyncToKV.getItemsCount key w = (Ok 0, w).
Proof. repeat split. Qed.

(** ** Writes *)

Section writes.
Variable store : KV.KVStore.

Lemma setValue_stores key v w :
  KV.rejects store (KV.Put key (JSON.stringify v)) = None →
  SplitStorageWrapper.setValue (Some store) key v w =
  (Ok true, World (<[key := JSON.stringify v]> (kv_data w)) (console w)).
Proof.
  intros H. unfold SplitStorageWrapper.setValue, try_catch, bind, KV.put,
    KV.invoke. by rewrite H.
Qed.

Lemma del_deletes key w :
  KV.rejects store (KV.Delete key) = None →
  SplitStorageWrapper.del (Some store) key w =
  (Ok true, World (delete key (kv_data w)) (console w)).
Proof.
  intros H. unfold SplitStorageWrapper.del, try_catch, bind, KV.delete,
    KV.invoke. by rewrite H.
Qed.
End writes.

(** A write never throws: it returns [true] or [false], and the console
    only grows. *)
Lemma setValue_returns kvStore key v w :
  ∃ b w' lines,
    SplitStorageWrapper.setValue kvStore key v w = (Ok b, w') ∧
    console w' = console w ++ lines.
Proof.
  unfold SplitStorageWrapper.setValue, try_catch, bind, KV.put, KV.invoke,
    console_error, ret, throw.
  destruct kvStore as [store|]; simpl; [| by eexists _, _, _].
  destruct (KV.rejects store _); simpl; [by eexists _, _, _ |].
  eexists _, _, []. by rewrite app_nil_r.
Qed.

(** ** Sets under keys that hold no array *)

Lemma observed_not_array kvStore w key :
  isArray (stored_value w key) = false →
  truthy (if readable kvStore key then stored_value w key else JNull) &&
  isArray (if readable kvStore key then stored_value w key else JNull) = false.
Proof. intros H. destruct (readable _ _); [rewrite H |]; by rewrite ?andb_false_r. Qed.

(** C10.  Under a key whose stored value is not an array, [itemContains]
    returns [false] for every item, [getItems] returns the empty list and
    [removeItems] removes nothing; none of them throws and each leaves the
    stored texts as they were (at most, lines are added to the console). *)
Theorem set_reads_on_non_array
    (kvStore : KV.handle) (key item : string) (items : list string) (w : world) :
  isArray (stored_value w key) = false →
  ∃ l1 l2 l3,
    SplitStorageWrapper.itemContains kvStore key item w = (Ok false, logged w l1) ∧
    SplitStorageWrapper.getItems kvStore key w = (Ok [], logged w l2) ∧
    SplitStorageWrapper.removeItems kvStore key items w = (Ok tt, logged w l3).
Proof.
  intros H. apply (observed_not_array kvStore) in H.
  destruct (getValue_observes kvStore key w) as [lines Hget].
  exists lines, lines, lines.
  unfold SplitStorageWrapper.itemContains, SplitStorageWrapper.getItems,
    SplitStorageWrapper.removeItems, try_catch, bind.
  rewrite Hget. unfold ret. by rewrite H.
Qed.

(** ** Stores that serve a key *)

Lemma reliable_serves key : serves KV.reliable key.
Proof. by repeat split. Qed.

Lemma reliable_answers key : answers API.reliable key.
Proof. by repeat split. Qed.

Lemma serves_readable store key : serves store key → readable (Some store) key = true.
Proof.
  intros (Hg & Ht & _). unfold readable. by rewrite !bool_decide_eq_true_2.
Qed.

Lemma answers_fetchable api key : answers api key → fetchable api key = true.
Proof. intros (Hg & _). unfold fetchable. by rewrite bool_decide_eq_true_2. Qed.

Lemma getValue_served store key w :
  serves store key →
  ∃ lines,
    SplitStorageWrapper.getValue (Some store) key w =
    (Ok (stored_value w key), logged w lines).
Proof.
  intros H. destruct (getValue_observes (Some store) key w) as [lines Hl].
  exists lines. by rewrite Hl, serves_readable.
Qed.

Lemma remote_getValue_served api key w :
  answers api key →
  ∃ lines,
    SyncToKV.getValue api key w = (Ok (stored_value w key), logged w lines).
Proof.
  intros H. destruct (remote_getValue_observes api key w) as [lines Hl].
  exists lines. by rewrite Hl, answers_fetchable.
Qed.

Lemma remote_setValue_stores api key v w :
  answers api key →
  SyncToKV.setValue api key v w =
  (Ok true, World (<[key := JSON.stringify v]> (kv_data w)) (console w)).
Proof.
  intros (_ & Hp & _).
  unfold SyncToKV.setValue, try_catch, bind, API.fetch. by rewrite Hp.
Qed.

(** ** Laws of single keys *)

(** C2.  On a store that serves the key, [set(key, v)] returns [true] and a
    [get(key)] right after it returns [v], which is its own JSON round trip:
    [JSON.parse(JSON.stringify(v))] is [v]. *)
Theorem set_then_get
    (store : KV.KVStore) (key : string) (v : value) (w : world) :
  serves store key →
  ∃ w1 w2,
    SplitStorageWrapper.set (Some store) key v w = (Ok true, w1) ∧
    SplitStorageWrapper.get (Some store) key w1 = (Ok v, w2) ∧
    JSON.parse (JSON.stringify v) = Some v.
Proof.
  intros H. pose proof H as (_ & _ & Hp & _).
  unfold SplitStorageWrapper.set, SplitStorageWrapper.get.
  set (w1 := World (<[key := JSON.stringify v]> (kv_data w)) (console w)).
  destruct (getValue_served store key w1 H) as [lines Hget].
  exists w1, (logged w1 lines).
  split; [by apply setValue_stores |]. split; [| apply parse_stringify].
  rewrite Hget. do 2 f_equal.
  apply stored_value_stringify. simpl. apply lookup_insert_eq.
Qed.

(** [del] returns [true] only when the store carried out the deletion. *)
Lemma del_true kvStore key w w1 :
  SplitStorageWrapper.del kvStore key w = (Ok true, w1) →
  w1 = World (delete key (kv_data w)) (console w).
Proof.
  unfold SplitStorageWrapper.del, try_catch, bind, KV.delete, KV.invoke,
    console_error, ret, throw.
  destruct kvStore as [store|]; simpl; [| done].
  destruct (KV.rejects store (KV.Delete key)); simpl; [done |].
  by intros [= <-].
Qed.

(** C7.  For every key, after a [del(key)] that the store carried out (one
    that returned [true]), a [get(key)] with no write in between returns
    [null], whether or not the read itself goes through. *)
Theorem del_then_get
    (kvStore : KV.handle) (key : string) (w w1 : world) :
  SplitStorageWrapper.del kvStore key w = (Ok true, w1) →
  ∃ w2, SplitStorageWrapper.get kvStore key w1 = (Ok JNull, w2).
Proof.
  intros H. apply del_true in H as ->. unfold SplitStorageWrapper.get.
  edestruct getValue_observes as [lines ->].
  eexists. do 2 f_equal.
  rewrite stored_value_absent; [by destruct (readable _ _) |].
  simpl. apply lookup_delete_eq.
Qed.

(** On a store that does not reject the deletion, [del] returns [true]. *)
Lemma del_returns_true store key w :
  KV.rejects store (KV.Delete key) = None →
  ∃ w1, SplitStorageWrapper.del (Some store) key w = (Ok true, w1).
Proof. intros H. eexists. by apply del_deletes. Qed.

(** ** Counters *)

(** C4.  On an absent key and a positive amount [n], [incr] stores and
    returns [0 + n] and [decr] stores and returns [0 - n], in the wrapper
    over the Compute binding and in the wrapper over the HTTP API alike. *)
Theorem counters_start_from_zero
    (store : KV.KVStore) (api : API.Service) (co : Coercion)
    (key : string) (n : Z) (w : world) :
  kv_data w !! key = None → 0 < n →
  serves store key → answers api key →
  let stored (x : Z) :=
    World (<[key := JSON.stringify (JNum x)]> (kv_data w)) (console w) in
  SplitStorageWrapper.incr (Some store) co key (Some n) w =
    (Ok (JNum (0 + n)), stored (0 + n)) ∧
  SplitStorageWrapper.decr (Some store) co key (Some n) w =
    (Ok (JNum (0 - n)), stored (0 - n)) ∧
  SyncToKV.incr api co key (Some n) w = (Ok (JNum (0 + n)), stored (0 + n)) ∧
  SyncToKV.decr api co key (Some n) w = (Ok (JNum (0 - n)), stored (0 - n)).
Proof.
  intros Habs Hn Hs Ha stored.
  assert (SplitStorageWrapper.getValue (Some store) key w = (Ok JNull, w)) as Hg.
  { destruct Hs as (Hg & _).
    unfold SplitStorageWrapper.getValue, try_catch, bind, KV.get, KV.invoke.
    by rewrite Hg, Habs. }
  assert (SyncToKV.getValue api key w = (Ok JNull, w)) as Hr.
  { destruct Ha as (Hg' & _).
    unfold SyncToKV.getValue, try_catch, bind, API.fetch, API.serve.
    by rewrite Hg', Habs. }
  destruct Hs as (_ & _ & Hp & _).
  unfold SplitStorageWrapper.incr, SplitStorageWrapper.decr,
    SyncToKV.incr, SyncToKV.decr, try_catch, bind.
  rewrite Hg, Hr. simpl.
  rewrite !setValue_stores, !remote_setValue_stores by done.
  done.
Qed.

(** ** The synchronisation script *)

(** C9.  The script exits with status 1 when one of the three variables of
    the environment is missing, and also when they are all there and the
    synchronisation fails (the callback receives an error, or the SDK
    throws); it exits with status 0 when they are all there and the
    synchronisation succeeds. *)
Theorem sync_exit_status
    (env : SyncToKV.environment) (run : SyncToKV.Synchronizer) (w : world) :
  (SyncToKV.main env run w).1 =
  if SyncToKV.missing (SyncToKV.FASTLY_API_TOKEN env)
     || SyncToKV.missing (SyncToKV.SPLIT_SDK_KEY env)
     || SyncToKV.missing (SyncToKV.KV_STORE_ID env)
  then 1
  else match (run w).1 with
       | Ok None => 0
       | Ok (Some _) | Throw _ => 1
       end.
Proof.
  unfold SyncToKV.main. destruct (_ || _ || _); [done |].
  unfold SyncToKV.syncHarnessFMEToFastly, bind.
  destruct (run w) as [[[e|]|e] w']; done.
Qed.

(** An unset variable is a missing one. *)
Lemma unset_is_missing : SyncToKV.missing None = true.
Proof. done. Qed.

(** ** The request handler *)

Lemma listing_stored opts w key :
  key ∈ KV.listing opts w → is_Some (kv_data w !! key).
Proof.
  unfold KV.listing, KV.at_most. intros H.
  assert (key ∈ List.filter (KV.has_prefix (KV.opt_prefix opts))
                  (map fst (map_to_list (kv_data w)))) as H'.
  { destruct (KV.opt_limit opts); [| done].
    rewrite <- (take_drop n (List.filter _ _)). apply elem_of_app. by left. }
  apply list_elem_of_In, filter_In in H' as [H' _].
  apply in_map_iff in H' as ([k t] & <- & Hin).
  apply list_elem_of_In, elem_of_map_to_list in Hin. by exists t.
Qed.

(** The status handler never gets to its page: the object that
    [kvStore.list] resolves to cannot be iterated, the loop raises and the
    handler answers 500; when the store rejects the listing it answers 500
    as well. *)
Lemma handleStatus_fails kvStore cfg w :
  ∃ e,
    Handler.handleStatus kvStore cfg w =
    (Ok (Handler.Response 500 "text/plain"
           (Handler.Plain ("Error checking status: " +:+ e))), w).
Proof.
  unfold Handler.handleStatus, try_catch, bind, KV.list, KV.invoke, ret, throw.
  destruct kvStore as [s|]; [destruct (KV.rejects s _) |]; by eexists.
Qed.

(** C8.  When the KV store is there, a request whose path is none of [/],
    [/get-treatment] and [/status] gets a response with status 404.  The
    status handler lists no key at all: whatever the store holds and
    whatever it does, the handler answers 500 and shows no status page.  On
    a store that holds the key [hits] and lists it, the answer is 500. *)
Theorem unknown_path_404_and_status_500 :
  (∀ (KVStore_new : string → result KV.KVStore)
     (getTreatment : KV.handle → Handler.config → string → string → M string)
     (cfg : Handler.config) (u : Handler.url) (store : KV.KVStore) (w : world),
     KVStore_new (Handler.KV_STORE_NAME cfg) = Ok store →
     Handler.pathname u ≠ "/" →
     Handler.pathname u ≠ "/get-treatment" →
     Handler.pathname u ≠ "/status" →
     ∃ r, Handler.handleRequest KVStore_new getTreatment cfg u w = (Ok r, w) ∧
          Handler.status r = 404) ∧
  (∀ (kvStore : KV.handle) (cfg : Handler.config) (w : world),
     ∃ r, Handler.handleStatus kvStore cfg w = (Ok r, w) ∧
          Handler.status r = 500 ∧
          ∀ keys c, Handler.body r ≠ Handler.StatusPage keys c) ∧
  KV.listing (KV.ListOptions None (Some 10%nat)) counter_world = ["hits"] ∧
  (∃ r, Handler.handleRequest demo_store demo_sdk demo_config
          (Handler.Url "/status" []) counter_world = (Ok r, counter_world) ∧
        Handler.status r = 500).
Proof.
  split; [| split; [| split]].
  - intros KVStore_new getTreatment cfg u store w Hnew H1 H2 H3.
    unfold Handler.handleRequest. rewrite Hnew.
    apply String.eqb_neq in H1, H2, H3. rewrite H1, H2, H3. by eexists.
  - intros kvStore cfg w. destruct (handleStatus_fails kvStore cfg w) as [e ->].
    eexists. split; [reflexivity |]. split; [reflexivity |]. done.
  - vm_compute. reflexivity.
  - destruct (handleStatus_fails (Some KV.reliable) demo_config counter_world)
      as [e He].
    eexists. split; [exact He | reflexivity].
Qed.

(** ** Sets *)

Section sets.
Implicit Types (x y : value) (l acc : list value).

Lemma same_value_zero_eq x y : same_value_zero x y = true → x = y.
Proof.
  destruct x, y; simpl; try done.
  - intros H. by apply Bool.eqb_prop in H as ->.
  - intros H. by apply Z.eqb_eq in H as ->.
  - intros H. by apply String.eqb_eq in H as ->.
Qed.

Lemma same_value_zero_sym x y : same_value_zero x y = same_value_zero y x.
Proof.
  destruct x, y; simpl; try done.
  - by destruct b, b0.
  - apply Z.eqb_sym.
  - apply String.eqb_sym.
Qed.

Lemma same_value_zero_string s : same_value_zero (JStr s) (JStr s) = true.
Proof. apply String.eqb_refl. Qed.

Lemma includes_app l1 l2 x : includes (l1 ++ l2) x = includes l1 x || includes l2 x.
Proof. apply existsb_app. Qed.

Lemma includes_elem l x : includes l x = true → x ∈ l.
Proof.
  unfold includes. rewrite existsb_exists. intros (y & Hy & E).
  apply same_value_zero_eq in E as ->. by apply list_elem_of_In.
Qed.

Lemma elem_includes l x : x ∈ l → same_value_zero x x = true → includes l x = true.
Proof.
  intros Hx E. unfold includes. rewrite existsb_exists.
  exists x. split; [by apply list_elem_of_In | done].
Qed.

Lemma set_add_elem acc x y : y ∈ acc → y ∈ set_add acc x.
Proof.
  intros H. unfold set_add. destruct (includes acc x); [done |].
  apply elem_of_app. by left.
Qed.

Lemma set_add_new acc x : x ∈ set_add acc x.
Proof.
  unfold set_add. destruct (includes acc x) eqn:E.
  - by apply includes_elem.
  - apply elem_of_app. right. by apply list_elem_of_singleton.
Qed.

Lemma set_add_from acc x y : y ∈ set_add acc x → y ∈ acc ∨ y = x.
Proof.
  unfold set_add. destruct (includes acc x); [by left |].
  rewrite elem_of_app, list_elem_of_singleton. tauto.
Qed.

(** Membership in the elements of the Set built from a list. *)
Lemma fold_set_add_elem l acc y :
  y ∈ fold_left set_add l acc ↔ y ∈ acc ∨ y ∈ l.
Proof.
  revert acc. induction l as [|x l IH]; intros acc; simpl.
  - rewrite elem_of_nil. tauto.
  - rewrite IH, elem_of_cons. split.
    + intros [H | H]; [apply set_add_from in H |]; tauto.
    + intros [H | [-> | H]]; [left; by apply set_add_elem | left; apply set_add_new | by right].
Qed.

Lemma new_Set_elem l y : y ∈ new_Set l ↔ y ∈ l.
Proof. unfold new_Set. rewrite fold_set_add_elem, elem_of_nil. tauto. Qed.

(** Adding elements the Set already has changes nothing. *)
Lemma fold_set_add_absorbed l acc :
  (∀ x, x ∈ l → includes acc x = true) → fold_left set_add l acc = acc.
Proof.
  induction l as [|x l IH]; intros H; simpl; [done |].
  assert (set_add acc x = acc) as ->.
  { unfold set_add. rewrite H; [done | by left]. }
  apply IH. intros y Hy. apply H. by right.
Qed.

Lemma duplicate_free_snoc acc x :
  duplicate_free (acc ++ [x]) ↔ duplicate_free acc ∧ includes acc x = false.
Proof.
  induction acc as [|y acc IH]; simpl.
  - tauto.
  - rewrite IH, includes_app. simpl.
    rewrite (same_value_zero_sym y x), orb_false_r.
    rewrite !orb_false_iff. tauto.
Qed.

Lemma fold_set_add_duplicate_free l acc :
  duplicate_free acc → duplicate_free (fold_left set_add l acc).
Proof.
  revert acc. induction l as [|x l IH]; intros acc H; simpl; [done |].
  apply IH. unfold set_add. destruct (includes acc x) eqn:E; [done |].
  by apply duplicate_free_snoc.
Qed.

Lemma new_Set_duplicate_free l : duplicate_free (new_Set l).
Proof. by apply fold_set_add_duplicate_free. Qed.

Lemma duplicate_free_middle a x r :
  duplicate_free (a ++ x :: r) → includes a x = false.
Proof.
  induction a as [|y a IH]; simpl; [done |].
  rewrite includes_app. simpl. intros [H1 H2].
  apply orb_false_iff in H1 as [_ H1]. apply orb_false_iff in H1 as [H1 _].
  by rewrite (same_value_zero_sym x y), H1, IH.
Qed.

(** A duplicate-free list is the list of elements of its own Set. *)
Lemma fold_set_add_fresh l acc :
  duplicate_free (acc ++ l) → fold_left set_add l acc = acc ++ l.
Proof.
  revert acc. induction l as [|x l IH]; intros acc H; simpl.
  - by rewrite app_nil_r.
  - unfold set_add. rewrite (duplicate_free_middle _ _ _ H).
    rewrite IH; rewrite <- app_assoc; done.
Qed.

Lemma new_Set_fixed l : duplicate_free l → new_Set l = l.
Proof. intros H. by apply (fold_set_add_fresh l []). Qed.

(** Adding again the strings of [items] to the Set built from a list that
    ends with them gives the same Set. *)
Lemma new_Set_again old (items : list string) :
  let U := new_Set (old ++ (JStr <$> items)) in
  new_Set (U ++ (JStr <$> items)) = U.
Proof.
  intros U. unfold new_Set at 1. rewrite fold_left_app.
  fold (new_Set U). rewrite new_Set_fixed by apply new_Set_duplicate_free.
  apply fold_set_add_absorbed. intros x Hx.
  apply elem_includes.
  - apply new_Set_elem, elem_of_app. by right.
  - apply list_elem_of_fmap in Hx as (s & -> & _). apply same_value_zero_string.
Qed.

(** On strings, duplicate-free is [NoDup]. *)
Lemma duplicate_free_strings (l : list string) :
  duplicate_free (JStr <$> l) → NoDup l.
Proof.
  induction l as [|s l IH]; [constructor |].
  rewrite fmap_cons. intros [H1 H2]. constructor; [| by apply IH].
  intros Hin. assert (includes (JStr <$> l) (JStr s) = true) as E.
  { apply elem_includes; [| apply same_value_zero_string].
    apply list_elem_of_fmap. by exists s. }
  congruence.
Qed.
End sets.

Lemma addItems_runs store key items old w :
  serves store key → holds_set w key old →
  ∃ lines,
    SplitStorageWrapper.addItems (Some store) key items w =
    (Ok tt,
     World (<[key := JSON.stringify (JArr (new_Set (old ++ (JStr <$> items))))]>
              (kv_data w))
           (console w ++ lines)).
Proof.
  intros Hs Hold. destruct (getValue_served store key w Hs) as [lines Hget].
  pose proof Hs as (_ & _ & Hp & _).
  exists lines. unfold SplitStorageWrapper.addItems, try_catch, bind.
  rewrite Hget.
  assert (spread (or_else (stored_value w key) (JArr [])) (logged w lines) =
          (Ok old, logged w lines)) as ->.
  { destruct Hold as [-> | [Habs ->]]; [done |].
    by rewrite stored_value_absent. }
  by rewrite setValue_stores.
Qed.

(** C3.  Under a key that holds a set, [addItems] stores the elements of the
    stored set followed by the given items, without duplicates: the stored
    array has an element exactly when the old set or the items have it, and
    no two of its elements are equal.  Doing the same [addItems] again
    leaves the stored texts as they are, and [getItems] returns the union. *)
Theorem addItems_stores_union
    (store : KV.KVStore) (key : string) (items : list string)
    (old : list value) (w : world) :
  serves store key → holds_set w key old →
  let U := new_Set (old ++ (JStr <$> items)) in
  ∃ w1 w2 w3,
    SplitStorageWrapper.addItems (Some store) key items w = (Ok tt, w1) ∧
    kv_data w1 = <[key := JSON.stringify (JArr U)]> (kv_data w) ∧
    stored_value w1 key = JArr U ∧
    duplicate_free U ∧
    (∀ x, x ∈ U ↔ x ∈ old ∨ x ∈ JStr <$> items) ∧
    SplitStorageWrapper.addItems (Some store) key items w1 = (Ok tt, w2) ∧
    kv_data w2 = kv_data w1 ∧
    SplitStorageWrapper.getItems (Some store) key w1 = (Ok U, w3).
Proof.
  intros Hs Hold U.
  destruct (addItems_runs store key items old w Hs Hold) as [l1 H1].
  fold U in H1.
  set (w1 := World (<[key := JSON.stringify (JArr U)]> (kv_data w))
               (console w ++ l1)) in *.
  assert (stored_value w1 key = JArr U) as HU.
  { apply stored_value_stringify. simpl. apply lookup_insert_eq. }
  destruct (addItems_runs store key items U w1 Hs (or_introl HU)) as [l2 H2].
  destruct (getValue_served store key w1 Hs) as [l3 H3].
  eexists w1, _, _. split; [exact H1 |]. split; [done |]. split; [done |].
  split; [apply new_Set_duplicate_free |].
  split; [intros x; unfold U; by rewrite new_Set_elem, elem_of_app |].
  split; [exact H2 |]. split.
  - simpl.
    rewrite (new_Set_again old items : new_Set (U ++ (JStr <$> items)) = U).
    apply insert_insert_eq.
  - unfold SplitStorageWrapper.getItems, try_catch, bind.
    rewrite H3, HU. reflexivity.
Qed.

(** ** The wrapper as a whole *)

(** [try { ... } catch (error) { console.error(...); return d }] returns,
    whatever the body does. *)
Lemma try_catch_returns {A} (m : M A) (msg : string) (d : A) w :
  ∃ a w',
    try_catch m (λ error, await _ := console_error msg error in ret d) w =
    (Ok a, w').
Proof.
  unfold try_catch, bind, console_error, ret.
  destruct (m w) as [[a|e] w']; by eexists _, _.
Qed.

Lemma returning_returns {A} (tag : A → returned) (m : M A) w :
  (∃ a w', m w = (Ok a, w')) → ∃ r w', returning tag m w = (Ok r, w').
Proof.
  intros (a & w' & H). unfold returning, bind. rewrite H. by eexists _, _.
Qed.

Lemma call_returns kvStore co o w :
  (o = Connect → kvStore ≠ None) →
  ∃ r w', call kvStore co o w = (Ok r, w').
Proof.
  intros Hc. destruct o; simpl; apply returning_returns;
    try apply try_catch_returns; try (by eexists _, _).
  - unfold SplitStorageWrapper.getAndSet, bind.
    destruct (getValue_observes kvStore key w) as [l ->].
    destruct (setValue_returns kvStore key v (logged w l)) as (b & w' & l' & -> & _).
    by eexists _, _.
  - destruct kvStore; [by eexists _, _ | by destruct Hc].
Qed.

Lemma call_falls_back store co o c e w :
  first_call o = Some c → KV.rejects store c = Some e →
  ∃ line lines w',
    call (Some store) co o w = (Ok (fallback o), w') ∧
    console w' = console w ++ line :: lines.
Proof.
  intros Hc He.
  destruct o; simpl in Hc; try discriminate; injection Hc as <-;
    unfold call, returning, SplitStorageWrapper.get, SplitStorageWrapper.set,
      SplitStorageWrapper.getAndSet, SplitStorageWrapper.del,
      SplitStorageWrapper.getKeysByPrefix, SplitStorageWrapper.incr,
      SplitStorageWrapper.decr, SplitStorageWrapper.itemContains,
      SplitStorageWrapper.addItems, SplitStorageWrapper.removeItems,
      SplitStorageWrapper.getItems, SplitStorageWrapper.getValue, bind,
      try_catch, KV.get, KV.delete, KV.list, KV.invoke;
    try rewrite He; simpl;
    try (by eexists _, [], _).
  1: { unfold SplitStorageWrapper.setValue, try_catch, bind, KV.put, KV.invoke.
       rewrite He. simpl. by eexists _, [], _. }
  all: match goal with
       | |- context [SplitStorageWrapper.setValue ?kv ?k ?x ?w0] =>
           destruct (setValue_returns kv k x w0) as (b & w' & l & -> & Hl)
       end;
    eexists _, _, _; (split; [reflexivity |]); rewrite Hl; simpl;
    by rewrite <- app_assoc.
Qed.

(** C1, amended.  No operation of the wrapper raises, [connect] on a wrapper
    built without a store excepted.  When the store rejects the call an
    operation starts with, the operation writes to the console and returns:
    [null] from [get] and [getAndSet]; [false] from [set], [del] and
    [itemContains]; an empty list from [getKeysByPrefix] and [getItems]; the
    amount counted up or down from zero from [incr] and [decr]; nothing from
    [addItems] and [removeItems]. *)
Theorem shim_swallows_failures
    (kvStore : KV.handle) (co : Coercion) (o : operation) (w : world) :
  (o = Connect → kvStore ≠ None) →
  (∃ r w', call kvStore co o w = (Ok r, w')) ∧
  (∀ store c e,
     kvStore = Some store → first_call o = Some c →
     KV.rejects store c = Some e →
     ∃ line lines w',
       call kvStore co o w = (Ok (fallback o), w') ∧
       console w' = console w ++ line :: lines).
Proof.
  intros Hc. split; [by apply call_returns |].
  intros store c e -> Hf He. by eapply call_falls_back.
Qed.

(** * Scenarios, by evaluation *)

(** [set("k", {"a":1})] then [get("k")] yields [{"a":1}]. *)
Example scenario_set_get :
  let kv := Some KV.reliable in
  ((await _ := SplitStorageWrapper.set kv "k" (JObj [("a", JNum 1)]) in
    SplitStorageWrapper.get kv "k") empty_world).1
  = Ok (JObj [("a", JNum 1)]).
Proof. vm_compute. reflexivity. Qed.

(** [addItems("s", ["x","y"])] then [addItems("s", ["y","z"])] then
    [getItems("s")] yields the three items. *)
Example scenario_addItems :
  let kv := Some KV.reliable in
  ((await _ := SplitStorageWrapper.addItems kv "s" ["x"; "y"] in
    await _ := SplitStorageWrapper.addItems kv "s" ["y"; "z"] in
    SplitStorageWrapper.getItems kv "s") empty_world).1
  = Ok [JStr "x"; JStr "y"; JStr "z"].
Proof. vm_compute. reflexivity. Qed.

(** The parser skips white space between tokens and refuses what is not
    JSON. *)
Example scenario_parse :
  JSON.parse " [1, -20 ,[ ] , {} , true,null ] " =
    Some (JArr [JNum 1; JNum (-20); JArr []; JObj []; JBool true; JNull]) ∧
  JSON.parse "[1,]" = None ∧ JSON.parse "01" = None ∧ JSON.parse "" = None ∧
  JSON.parse "tru" = None ∧ JSON.parse "1 2" = None.
Proof. repeat split. Qed.

(** A counter that is there is counted up; a set added under a key that
    holds a number is refused by the spread, the error is caught and the
    number stays. *)
Example scenario_counter_then_set :
  let kv := Some KV.reliable in
  ((await n := SplitStorageWrapper.incr kv no_coercion "hits" None in
    await _ := SplitStorageWrapper.addItems kv "hits" ["x"] in
    await v := SplitStorageWrapper.get kv "hits" in
    ret (n, v)) counter_world).1
  = Ok (JNum 6, JNum 6).
Proof. vm_compute. reflexivity. Qed.

(** The wrapper of the script has no [try] around the spread: there the same
    [addItems] raises. *)
Example scenario_remote_addItems :
  (SyncToKV.addItems API.reliable "hits" ["x"] counter_world).1 =
  Throw "TypeError: set is not iterable".
Proof. vm_compute. reflexivity. Qed.

(** [connect] raises exactly on a wrapper built without a store. *)
Lemma connect_guard (kvStore : KV.handle) (w : world) :
  SplitStorageWrapper.connect kvStore w =
  match kvStore with
  | Some _ => (Ok tt, w)
  | None => (Throw "Error: KV Store not provided", w)
  end.
Proof. by destruct kvStore. Qed.

(** A deletion the store rejects is swallowed: [del] returns [false] and the
    value is still there for [get]. *)
Example scenario_rejected_delete :
  let kv := Some undeletable in
  ((await deleted := SplitStorageWrapper.del kv "hits" in
    await v := SplitStorageWrapper.get kv "hits" in
    ret (deleted, v)) counter_world).1
  = Ok (false, JNum 5).
Proof. vm_compute. reflexivity. Qed.

(** [getMany] on a present, an absent and a present key. *)
Example scenario_getMany :
  (SplitStorageWrapper.getMany (Some KV.reliable) ["hits"; "none"; "hits"]
     counter_world).1
  = Ok [JNum 5; JNull; JNum 5].
Proof. vm_compute. reflexivity. Qed.

(** The script with its environment set and a synchronizer that succeeds,
    and with one variable unset. *)
Example scenario_sync_exit :
  (SyncToKV.main (SyncToKV.Environment (Some "token") (Some "key") (Some "id"))
     (ret None) empty_world).1 = 0 ∧
  (SyncToKV.main (SyncToKV.Environment (Some "token") None (Some "id"))
     (ret None) empty_world).1 = 1 ∧
  (SyncToKV.main (SyncToKV.Environment (Some "token") (Some "key") (Some "id"))
     (ret (Some "Error: sync failed")) empty_world).1 = 1.
Proof. repeat split. Qed.

(** * Instances of the conditional properties *)

(** C1 as the specification states it fails twice: [connect] raises on a
    wrapper built without a store, and [incr] on a store that rejects every
    call returns the amount, which is none of [null], [false] and an empty
    collection. *)
Lemma connect_raises_and_incr_counts :
  call None no_coercion Connect empty_world =
    (Throw "Error: KV Store not provided", empty_world) ∧
  (call (Some unreachable) no_coercion (Incr "hits" (Some 5)) empty_world).1 =
    Ok (Value (JNum 5)) ∧
  safe_default (Value (JNum 5)) = false.
Proof. repeat split. Qed.

Lemma shim_swallows_failures_witness :
  (Incr "hits" (Some 5) = Connect → Some unreachable ≠ None) ∧
  (∃ r w', call (Some unreachable) no_coercion (Incr "hits" (Some 5))
             empty_world = (Ok r, w')) ∧
  (∀ store c e,
     Some unreachable = Some store →
     first_call (Incr "hits" (Some 5)) = Some c →
     KV.rejects store c = Some e →
     ∃ line lines w',
       call (Some unreachable) no_coercion (Incr "hits" (Some 5)) empty_world =
         (Ok (fallback (Incr "hits" (Some 5))), w') ∧
       console w' = console empty_world ++ line :: lines).
Proof.
  split; [discriminate |].
  apply (shim_swallows_failures (Some unreachable) no_coercion
           (Incr "hits" (Some 5)) empty_world).
  discriminate.
Defined.

Lemma set_then_get_witness :
  serves KV.reliable "k" ∧
  ∃ w1 w2,
    SplitStorageWrapper.set (Some KV.reliable) "k" (JObj [("a", JNum 1)])
      empty_world = (Ok true, w1) ∧
    SplitStorageWrapper.get (Some KV.reliable) "k" w1 =
      (Ok (JObj [("a", JNum 1)]), w2) ∧
    JSON.parse (JSON.stringify (JObj [("a", JNum 1)])) =
      Some (JObj [("a", JNum 1)]).
Proof.
  split; [repeat split |].
  apply (set_then_get KV.reliable "k" (JObj [("a", JNum 1)]) empty_world).
  repeat split.
Defined.

Lemma addItems_stores_union_witness :
  serves KV.reliable "s" ∧ holds_set empty_world "s" [] ∧
  let U := new_Set ([] ++ (JStr <$> ["x"; "y"])) in
  ∃ w1 w2 w3,
    SplitStorageWrapper.addItems (Some KV.reliable) "s" ["x"; "y"] empty_world =
      (Ok tt, w1) ∧
    kv_data w1 = <[ "s" := JSON.stringify (JArr U) ]> (kv_data empty_world) ∧
    stored_value w1 "s" = JArr U ∧
    duplicate_free U ∧
    (∀ x, x ∈ U ↔ x ∈ [] ∨ x ∈ JStr <$> ["x"; "y"]) ∧
    SplitStorageWrapper.addItems (Some KV.reliable) "s" ["x"; "y"] w1 =
      (Ok tt, w2) ∧
    kv_data w2 = kv_data w1 ∧
    SplitStorageWrapper.getItems (Some KV.reliable) "s" w1 = (Ok U, w3).
Proof.
  split; [repeat split |]. split; [right; split; reflexivity |].
  apply (addItems_stores_union KV.reliable "s" ["x"; "y"] [] empty_world).
  - repeat split.
  - right. split; reflexivity.
Defined.

Lemma counters_start_from_zero_witness :
  kv_data empty_world !! "hits" = None ∧ 0 < 3 ∧
  serves KV.reliable "hits" ∧ answers API.reliable "hits" ∧
  let stored (x : Z) :=
    World (<[ "hits" := JSON.stringify (JNum x) ]> (kv_data empty_world))
      (console empty_world) in
  SplitStorageWrapper.incr (Some KV.reliable) no_coercion "hits" (Some 3)
    empty_world = (Ok (JNum (0 + 3)), stored (0 + 3)) ∧
  SplitStorageWrapper.decr (Some KV.reliable) no_coercion "hits" (Some 3)
    empty_world = (Ok (JNum (0 - 3)), stored (0 - 3)) ∧
  SyncToKV.incr API.reliable no_coercion "hits" (Some 3) empty_world =
    (Ok (JNum (0 + 3)), stored (0 + 3)) ∧
  SyncToKV.decr API.reliable no_coercion "hits" (Some 3) empty_world =
    (Ok (JNum (0 - 3)), stored (0 - 3)).
Proof.
  split; [reflexivity |]. split; [lia |].
  split; [repeat split |]. split; [repeat split |].
  apply (counters_start_from_zero KV.reliable API.reliable no_coercion
           "hits" 3 empty_world).
  - reflexivity.
  - lia.
  - repeat split.
  - repeat split.
Defined.

Lemma del_then_get_witness :
  SplitStorageWrapper.del (Some KV.reliable) "hits" counter_world =
    (Ok true, empty_world) ∧
  ∃ w2, SplitStorageWrapper.get (Some KV.reliable) "hits" empty_world =
          (Ok JNull, w2).
Proof.
  split; [vm_compute; reflexivity |].
  apply (del_then_get (Some KV.reliable) "hits" counter_world empty_world).
  vm_compute. reflexivity.
Defined.

Lemma set_reads_on_non_array_witness :
  isArray (stored_value counter_world "hits") = false ∧
  ∃ l1 l2 l3,
    SplitStorageWrapper.itemContains (Some KV.reliable) "hits" "x" counter_world =
      (Ok false, logged counter_world l1) ∧
    SplitStorageWrapper.getItems (Some KV.reliable) "hits" counter_world =
      (Ok [], logged counter_world l2) ∧
    SplitStorageWrapper.removeItems (Some KV.reliable) "hits" ["x"] counter_world =
      (Ok tt, logged counter_world l3).
Proof.
  split; [vm_compute; reflexivity |].
  apply (set_reads_on_non_array (Some KV.reliable) "hits" "x" ["x"] counter_world).
  vm_compute. reflexivity.
Defined.

(** * Further properties *)

(** ** What a computation keeps *)

Section preserving.
Context {P : world → Prop}.

Lemma preserves_ret {A} (a : A) : preserves P (ret a).
Proof. by intros w. Qed.

Lemma preserves_throw {A} (e : string) : preserves P (@throw A e).
Proof. by intros w. Qed.

Lemma preserves_lift {A} (r : result A) : preserves P (lift r).
Proof. by intros w. Qed.

Lemma preserves_bind {A B} (m : M A) (k : A → M B) :
  preserves P m → (∀ a, preserves P (k a)) → preserves P (bind m k).
Proof.
  intros Hm Hk w Hw. unfold bind. specialize (Hm w Hw).
  destruct (m w) as [[a|e] w']; simpl in *; [by apply Hk | done].
Qed.

Lemma preserves_try_catch {A} (m : M A) (h : string → M A) :
  preserves P m → (∀ e, preserves P (h e)) → preserves P (try_catch m h).
Proof.
  intros Hm Hh w Hw. unfold try_catch. specialize (Hm w Hw).
  destruct (m w) as [[a|e] w']; simpl in *; [done | by apply Hh].
Qed.

Lemma preserves_all_map {A B} (f : A → M B) (xs : list A) :
  (∀ x, preserves P (f x)) → preserves P (all_map f xs).
Proof.
  intros Hf. induction xs as [|x xs IH]; simpl; [apply preserves_ret |].
  apply preserves_bind; [apply Hf | intros y].
  apply preserves_bind; [apply IH | intros ys]. apply preserves_ret.
Qed.

Lemma preserves_invoke {A} kv c (run : M A) :
  preserves P run → preserves P (KV.invoke kv c run).
Proof.
  intros H. unfold KV.invoke. destruct kv as [store|]; [| apply preserves_throw].
  destruct (KV.rejects store c); [apply preserves_throw | done].
Qed.

Lemma preserves_kv_get kv key : preserves P (KV.get kv key).
Proof. apply preserves_invoke. intros w Hw. by destruct w. Qed.

Lemma preserves_kv_text kv key e : preserves P (KV.text kv key e).
Proof. apply preserves_invoke, preserves_ret. Qed.

Lemma preserves_kv_list kv opts : preserves P (KV.list kv opts).
Proof. apply preserves_invoke. intros w Hw. by destruct w. Qed.

Lemma preserves_JSON_parse text : preserves P (JSON_parse text).
Proof.
  unfold JSON_parse. destruct (JSON.parse text);
    [apply preserves_ret | apply preserves_throw].
Qed.

Lemma preserves_plus co a n : preserves P (plus co a n).
Proof.
  destruct a; simpl; try destruct (exact _ _ _);
    first [apply preserves_ret | apply preserves_lift].
Qed.

Lemma preserves_minus co a n : preserves P (minus co a n).
Proof.
  destruct a; simpl; try destruct (exact _ _ _);
    first [apply preserves_ret | apply preserves_lift].
Qed.

Lemma preserves_spread v : preserves P (spread v).
Proof. destruct v; first [apply preserves_ret | apply preserves_throw]. Qed.

(** From here on the property does not depend on the console. *)
Hypothesis console_free :
  ∀ w line, P w → P (World (kv_data w) (console w ++ [line])).

Lemma preserves_console_error msg error : preserves P (console_error msg error).
Proof. intros w Hw. by apply console_free. Qed.

Lemma preserves_getValue kv key :
  preserves P (SplitStorageWrapper.getValue kv key).
Proof.
  apply preserves_try_catch.
  - apply preserves_bind; [apply preserves_kv_get | intros [e|]];
      [| apply preserves_ret].
    apply preserves_bind; [apply preserves_kv_text | intros text].
    destruct (String.eqb text ""); [apply preserves_ret |].
    apply preserves_JSON_parse.
  - intros e. apply preserves_bind; [apply preserves_console_error |].
    intros _. apply preserves_ret.
Qed.

Lemma preserves_remote_getValue api key :
  preserves P (SyncToKV.getValue api key).
Proof.
  apply preserves_try_catch.
  - apply preserves_bind.
    + intros w Hw. unfold API.fetch, API.serve.
      destruct (API.fails api _) as [[e|st tx]|]; [done | done |].
      by destruct (kv_data w !! key).
    + intros r. destruct (API.status r =? 404); [apply preserves_ret |].
      destruct (negb (API.ok r)); [apply preserves_throw |]. cbv zeta.
      destruct (String.eqb (API.body r) ""); [apply preserves_ret |].
      apply preserves_JSON_parse.
  - intros e. apply preserves_bind; [apply preserves_console_error |].
    intros _. apply preserves_ret.
Qed.

Section writing.
Variable key : string.
Hypothesis put_keeps :
  ∀ w v, P w → P (World (<[key := JSON.stringify v]> (kv_data w)) (console w)).
Hypothesis delete_keeps :
  ∀ w, P w → P (World (delete key (kv_data w)) (console w)).

Lemma preserves_setValue kv v :
  preserves P (SplitStorageWrapper.setValue kv key v).
Proof.
  apply preserves_try_catch.
  - apply preserves_bind; [| intros _; apply preserves_ret].
    apply preserves_invoke. intros w Hw. by apply put_keeps.
  - intros e. apply preserves_bind; [apply preserves_console_error |].
    intros _. apply preserves_ret.
Qed.

Lemma preserves_del kv : preserves P (SplitStorageWrapper.del kv key).
Proof.
  apply preserves_try_catch.
  - apply preserves_bind; [| intros _; apply preserves_ret].
    apply preserves_invoke. intros w Hw. by apply delete_keeps.
  - intros e. apply preserves_bind; [apply preserves_console_error |].
    intros _. apply preserves_ret.
Qed.
End writing.
End preserving.

(** Whatever an operation of the wrapper does, it does by logging, by
    putting a JSON text under its own key or by deleting its own key. *)
Lemma call_preserves (P : world → Prop) kvStore co o :
  (∀ w line, P w → P (World (kv_data w) (console w ++ [line]))) →
  (∀ key w v, target o = Some key → P w →
     P (World (<[key := JSON.stringify v]> (kv_data w)) (console w))) →
  (∀ key w, target o = Some key → P w →
     P (World (delete key (kv_data w)) (console w))) →
  preserves P (call kvStore co o).
Proof.
  intros Hlog Hput Hdel.
  assert (∀ msg d, ∀ e : string,
            preserves P (await _ := console_error msg e in @ret unit d)) as Hu.
  { intros. apply preserves_bind; [by apply preserves_console_error |].
    intros _. apply preserves_ret. }
  destruct o; simpl in *; unfold returning;
    (apply preserves_bind; [| intros ?; apply preserves_ret]);
    try (by apply preserves_ret);
    try (by apply preserves_getValue).
  - apply preserves_setValue; [done |]. intros; by apply Hput.
  - apply preserves_bind; [by apply preserves_getValue | intros old].
    apply preserves_bind; [| intros _; apply preserves_ret].
    apply preserves_setValue; [done |]. intros; by apply Hput.
  - apply preserves_del; [done |]. intros; by apply Hdel.
  - apply preserves_try_catch.
    + apply preserves_bind; [apply preserves_kv_list | intros l].
      apply preserves_ret.
    + intros e. apply preserves_bind; [by apply preserves_console_error |].
      intros _. apply preserves_ret.
  - apply preserves_try_catch.
    + apply preserves_bind; [| intros l; apply preserves_ret].
      apply preserves_all_map. intros k. by apply preserves_getValue.
    + intros e. apply preserves_bind; [by apply preserves_console_error |].
      intros _. apply preserves_ret.
  - apply preserves_try_catch.
    + apply preserves_bind; [by apply preserves_getValue | intros cur].
      apply preserves_bind; [apply preserves_plus | intros new].
      apply preserves_bind; [| intros _; apply preserves_ret].
      apply preserves_setValue; [done |]. intros; by apply Hput.
    + intros e. apply preserves_bind; [by apply preserves_console_error |].
      intros _. apply preserves_ret.
  - apply preserves_try_catch.
    + apply preserves_bind; [by apply preserves_getValue | intros cur].
      apply preserves_bind; [apply preserves_minus | intros new].
      apply preserves_bind; [| intros _; apply preserves_ret].
      apply preserves_setValue; [done |]. intros; by apply Hput.
    + intros e. apply preserves_bind; [by apply preserves_console_error |].
      intros _. apply preserves_ret.
  - apply preserves_try_catch.
    + apply preserves_bind; [by apply preserves_getValue | intros cur].
      apply preserves_ret.
    + intros e. apply preserves_bind; [by apply preserves_console_error |].
      intros _. apply preserves_ret.
  - apply preserves_try_catch.
    + apply preserves_bind; [by apply preserves_getValue | intros cur].
      apply preserves_bind; [apply preserves_spread | intros elems].
      apply preserves_bind; [| intros _; apply preserves_ret].
      apply preserves_setValue; [done |]. intros; by apply Hput.
    + apply Hu.
  - apply preserves_try_catch.
    + apply preserves_bind; [by apply preserves_getValue | intros cur].
      destruct (truthy cur && isArray cur); [| apply preserves_ret].
      destruct cur; try apply preserves_ret.
      apply preserves_bind; [| intros _; apply preserves_ret].
      apply preserves_setValue; [done |]. intros; by apply Hput.
    + apply Hu.
  - apply preserves_try_catch.
    + apply preserves_bind; [by apply preserves_getValue | intros cur].
      apply preserves_ret.
    + intros e. apply preserves_bind; [by apply preserves_console_error |].
      intros _. apply preserves_ret.
  - unfold SplitStorageWrapper.connect.
    destruct kvStore; [apply preserves_ret | apply preserves_throw].
Qed.

(** ** What operations write, and what they leave alone *)

(** X1.  An operation of the wrapper changes no stored text but under its
    own key: under every other key the text after the operation is the text
    before it, whatever the store rejects and whether or not the operation
    succeeds.  Operations without a key to write ([get], [getMany],
    [getKeysByPrefix], [itemContains], [getItems], the queue operations,
    [connect], [disconnect]) change no stored text at all. *)
Theorem operations_touch_own_key
    (kvStore : KV.handle) (co : Coercion) (o : operation) (w : world)
    (other : string) :
  target o ≠ Some other →
  kv_data (call kvStore co o w).2 !! other = kv_data w !! other.
Proof.
  intros Hne.
  apply (call_preserves (λ w', kv_data w' !! other = kv_data w !! other));
    simpl; try done.
  - intros key w' v Hk H. rewrite lookup_insert_ne; [done | congruence].
  - intros key w' Hk H. rewrite lookup_delete_ne; [done | congruence].
Qed.

(** X2.  When every stored text is JSON, every stored text is JSON after any
    operation of the wrapper: the wrapper writes nothing but
    [JSON.stringify] of a value. *)
Theorem stored_texts_stay_json
    (kvStore : KV.handle) (co : Coercion) (o : operation) (w : world) :
  all_json w → all_json (call kvStore co o w).2.
Proof.
  apply (call_preserves all_json); unfold all_json; simpl; try done.
  - intros key w' v _ H k text. destruct (decide (key = k)) as [<-|Hne].
    + rewrite lookup_insert_eq. intros [= <-]. by rewrite parse_stringify.
    + rewrite lookup_insert_ne by done. apply H.
  - intros key w' _ H k text Hk. apply lookup_delete_Some in Hk as [_ Hk].
    by eapply H.
Qed.

(** X3.  The boolean [set] and [del] return tells what happened: after
    [true] the text is stored (the key is gone); after [false] the stored
    texts are what they were.  Neither raises. *)
Theorem write_results_tell
    (kvStore : KV.handle) (key : string) (v : value) (w : world) :
  ∃ stored w1 deleted w2,
    SplitStorageWrapper.set kvStore key v w = (Ok stored, w1) ∧
    kv_data w1 =
      (if stored then <[key := JSON.stringify v]> (kv_data w) else kv_data w) ∧
    SplitStorageWrapper.del kvStore key w = (Ok deleted, w2) ∧
    kv_data w2 = (if deleted then delete key (kv_data w) else kv_data w).
Proof.
  unfold SplitStorageWrapper.set, SplitStorageWrapper.setValue,
    SplitStorageWrapper.del, try_catch, bind, KV.put, KV.delete, KV.invoke,
    console_error, ret, throw.
  destruct kvStore as [store|]; simpl; [| by eexists _, _, _, _].
  destruct (KV.rejects store (KV.Put key _)),
    (KV.rejects store (KV.Delete key)); simpl; by eexists _, _, _, _.
Qed.

(** X4.  A wrapper built without a store raises only from [connect]: every
    other operation returns, changes no stored text, and returns its
    default when it starts with a call on the store. *)
Theorem wrapper_without_store (co : Coercion) (o : operation) (w : world) :
  o ≠ Connect →
  ∃ r w',
    call None co o w = (Ok r, w') ∧
    kv_data w' = kv_data w ∧
    (first_call o ≠ None → r = fallback o).
Proof.
  intros Hc.
  destruct o; try (by eexists _, _; repeat split).
  destruct (getMany_observes None keys w) as [lines H].
  eexists _, _. unfold call, returning, bind. rewrite H. by repeat split.
Qed.

(** ** Reads and writes that compose *)

(** X5.  On a store that serves the key, [getAndSet] returns the value that
    was stored (null for an absent key) and leaves the new value for the
    next [get]. *)
Theorem getAndSet_swaps
    (store : KV.KVStore) (key : string) (v : value) (w : world) :
  serves store key →
  ∃ w1 w2,
    SplitStorageWrapper.getAndSet (Some store) key v w =
      (Ok (stored_value w key), w1) ∧
    SplitStorageWrapper.get (Some store) key w1 = (Ok v, w2).
Proof.
  intros Hs. pose proof Hs as (_ & _ & Hp & _).
  destruct (getValue_served store key w Hs) as [l1 H1].
  set (w1 := World (<[key := JSON.stringify v]> (kv_data w)) (console w ++ l1)).
  destruct (getValue_served store key w1 Hs) as [l2 H2].
  exists w1, (logged w1 l2). split.
  - unfold SplitStorageWrapper.getAndSet, bind. rewrite H1.
    by rewrite setValue_stores.
  - unfold SplitStorageWrapper.get. rewrite H2. do 2 f_equal.
    apply stored_value_stringify. simpl. apply lookup_insert_eq.
Qed.

(** X6.  A stored text that is empty or is not JSON reads as null: [get]
    returns null without raising and leaves the text where it is; the
    malformed text, not the empty one, costs a line on the console. *)
Theorem malformed_text_reads_null
    (store : KV.KVStore) (key text : string) (w : world) :
  serves store key →
  kv_data w !! key = Some text → JSON.parse text = None →
  ∃ line,
    SplitStorageWrapper.get (Some store) key w =
    (Ok JNull, if String.eqb text "" then w else logged w [line]).
Proof.
  intros (Hg & Ht & _) Hk Hp.
  unfold SplitStorageWrapper.get, SplitStorageWrapper.getValue, try_catch,
    bind, KV.get, KV.text, KV.invoke, JSON_parse.
  rewrite Hg. simpl. rewrite Hk, Ht. simpl.
  destruct (String.eqb text ""); [by exists "" |].
  rewrite Hp. by eexists.
Qed.

Lemma includes_string l s : includes l (JStr s) = true ↔ JStr s ∈ l.
Proof.
  split; [apply includes_elem |].
  intros H. apply elem_includes; [done | apply same_value_zero_string].
Qed.

Lemma includes_items (items : list string) x :
  includes (JStr <$> items) x = true ↔ x ∈ JStr <$> items.
Proof.
  split; [apply includes_elem |]. intros H. apply elem_includes; [done |].
  apply list_elem_of_fmap in H as (s & -> & _). apply same_value_zero_string.
Qed.

(** X7.  [itemContains] and [getItems] agree, whatever the store does:
    [itemContains(key, item)] is true exactly when the list [getItems(key)]
    returns has the item. *)
Theorem itemContains_iff_getItems
    (kvStore : KV.handle) (key item : string) (w : world) :
  ∃ l b w1 w2,
    SplitStorageWrapper.getItems kvStore key w = (Ok l, w1) ∧
    SplitStorageWrapper.itemContains kvStore key item w = (Ok b, w2) ∧
    (b = true ↔ JStr item ∈ l).
Proof.
  destruct (getValue_observes kvStore key w) as [lines H].
  unfold SplitStorageWrapper.getItems, SplitStorageWrapper.itemContains,
    try_catch, bind. rewrite H. unfold ret.
  eexists _, _, _, _. split; [reflexivity |]. split; [reflexivity |].
  destruct (truthy _ && isArray _).
  - destruct (if readable _ _ then _ else _); try apply includes_string;
      by rewrite elem_of_nil.
  - by rewrite elem_of_nil.
Qed.

(** ** Sets: removing, and adding then removing *)

Lemma stored_value_put m c key v :
  stored_value (World (<[key := JSON.stringify v]> m) c) key = v.
Proof. apply stored_value_stringify. cbn [kv_data]. apply lookup_insert_eq. Qed.

Lemma removeItems_runs store key items old w :
  serves store key → stored_value w key = JArr old →
  ∃ lines,
    SplitStorageWrapper.removeItems (Some store) key items w =
    (Ok tt,
     World (<[key := JSON.stringify
                (JArr (List.filter
                         (λ item, negb (includes (JStr <$> items) item)) old))]>
              (kv_data w))
           (console w ++ lines)).
Proof.
  intros Hs Hold. destruct (getValue_served store key w Hs) as [lines Hget].
  pose proof Hs as (_ & _ & Hp & _).
  exists lines. unfold SplitStorageWrapper.removeItems, try_catch, bind.
  rewrite Hget, Hold. simpl. by rewrite setValue_stores.
Qed.

Lemma itemContains_runs store key item l w :
  serves store key → stored_value w key = JArr l →
  ∃ lines,
    SplitStorageWrapper.itemContains (Some store) key item w =
    (Ok (includes l (JStr item)), logged w lines).
Proof.
  intros Hs Hl. destruct (getValue_served store key w Hs) as [lines Hget].
  exists lines. unfold SplitStorageWrapper.itemContains, try_catch, bind.
  by rewrite Hget, Hl.
Qed.

Lemma filter_sublist {A} (f : A → bool) (l : list A) :
  sublist (List.filter f l) l.
Proof.
  induction l as [|x l IH]; simpl; [constructor |].
  destruct (f x); by constructor.
Qed.

(** X8.  Under a key that holds an array, on a store that serves the key,
    [removeItems] stores the elements that are none of the items, in the
    order they had; afterwards [itemContains] is false for every item
    removed. *)
Theorem removeItems_removes
    (store : KV.KVStore) (key : string) (items : list string)
    (old : list value) (w : world) :
  serves store key → stored_value w key = JArr old →
  ∃ kept w1,
    SplitStorageWrapper.removeItems (Some store) key items w = (Ok tt, w1) ∧
    stored_value w1 key = JArr kept ∧
    sublist kept old ∧
    (∀ x, x ∈ kept ↔ x ∈ old ∧ x ∉ JStr <$> items) ∧
    (∀ item, item ∈ items →
       ∃ w2, SplitStorageWrapper.itemContains (Some store) key item w1 =
               (Ok false, w2)).
Proof.
  intros Hs Hold.
  destruct (removeItems_runs store key items old w Hs Hold) as [l1 H1].
  set (kept := List.filter (λ item, negb (includes (JStr <$> items) item)) old)
    in *.
  eexists kept, _. split; [exact H1 |].
  assert (∀ x, x ∈ kept ↔ x ∈ old ∧ x ∉ JStr <$> items) as Hkept.
  { intros x. unfold kept. rewrite list_elem_of_In, filter_In, <- list_elem_of_In.
    rewrite negb_true_iff, <- not_true_iff_false, includes_items. tauto. }
  match goal with |- stored_value ?w1 _ = _ ∧ _ =>
    assert (stored_value w1 key = JArr kept) as Hst
      by apply stored_value_put
  end.
  split; [done |]. split; [apply filter_sublist |]. split; [done |].
  intros item Hitem.
  edestruct itemContains_runs as [l2 H2]; [exact Hs | exact Hst |].
  assert (includes kept (JStr item) = false) as Hout.
  { apply not_true_iff_false. rewrite includes_string, Hkept.
    intros [_ Hn]. apply Hn, list_elem_of_fmap. by exists item. }
  rewrite Hout in H2. eexists. exact H2.
Qed.

(** X9.  Under a key that holds a set, on a store that serves the key,
    every item given to [addItems] is contained afterwards. *)
Theorem added_items_are_contained
    (store : KV.KVStore) (key item : string) (items : list string)
    (old : list value) (w : world) :
  serves store key → holds_set w key old → item ∈ items →
  ∃ w1 w2,
    SplitStorageWrapper.addItems (Some store) key items w = (Ok tt, w1) ∧
    SplitStorageWrapper.itemContains (Some store) key item w1 = (Ok true, w2).
Proof.
  intros Hs Hold Hitem.
  destruct (addItems_runs store key items old w Hs Hold) as [l1 H1].
  set (U := new_Set (old ++ (JStr <$> items))) in *.
  match type of H1 with _ = (_, ?w1) =>
    destruct (itemContains_runs store key item U w1 Hs
                (stored_value_put _ _ key (JArr U))) as [l2 H2]
  end.
  assert (includes U (JStr item) = true) as Hin.
  { apply includes_string, new_Set_elem, elem_of_app.
    right. apply list_elem_of_fmap. by exists item. }
  rewrite Hin in H2. eexists _, _. split; [exact H1 | exact H2].
Qed.

(** What [set_add] appends comes from the list added. *)
Lemma fold_set_add_tail l acc :
  ∃ tail, fold_left set_add l acc = acc ++ tail ∧ ∀ x, x ∈ tail → x ∈ l.
Proof.
  revert acc. induction l as [|x l IH]; intros acc; simpl.
  - exists []. by rewrite app_nil_r.
  - unfold set_add at 2. destruct (includes acc x).
    + destruct (IH acc) as (t & -> & Ht). exists t. split; [done |].
      intros y Hy. right. by apply Ht.
    + destruct (IH (acc ++ [x])) as (t & -> & Ht). exists (x :: t).
      split; [by rewrite <- app_assoc |].
      intros y [->|Hy]%elem_of_cons; [by left | right; by apply Ht].
Qed.

(** X10.  Adding items that are not in the stored set and removing them
    again restores the set: under a key that holds a duplicate-free array,
    on a store that serves the key, [addItems] followed by [removeItems] of
    the same fresh items leaves the array that was stored. *)
Theorem add_then_remove_restores
    (store : KV.KVStore) (key : string) (items : list string)
    (old : list value) (w : world) :
  serves store key → holds_set w key old → duplicate_free old →
  (∀ item, item ∈ items → JStr item ∉ old) →
  ∃ w1 w2,
    SplitStorageWrapper.addItems (Some store) key items w = (Ok tt, w1) ∧
    SplitStorageWrapper.removeItems (Some store) key items w1 = (Ok tt, w2) ∧
    stored_value w2 key = JArr old.
Proof.
  intros Hs Hold Hdup Hfresh.
  destruct (addItems_runs store key items old w Hs Hold) as [l1 H1].
  set (U := new_Set (old ++ (JStr <$> items))) in *.
  match type of H1 with _ = (_, ?w1) =>
    assert (stored_value w1 key = JArr U) as HU
      by apply stored_value_put;
    destruct (removeItems_runs store key items U w1 Hs HU) as [l2 H2]
  end.
  eexists _, _. split; [exact H1 |]. split; [exact H2 |].
  apply stored_value_stringify. cbn [kv_data]. rewrite lookup_insert_eq.
  do 3 f_equal.
  unfold U, new_Set. rewrite fold_left_app.
  fold (new_Set old). rewrite (new_Set_fixed old Hdup).
  destruct (fold_set_add_tail (JStr <$> items) old) as (t & -> & Ht).
  rewrite List.filter_app.
  assert (List.filter (λ item, negb (includes (JStr <$> items) item)) t = [])
    as ->.
  { clear -Ht. induction t as [|x t IH]; [done |]. simpl.
    assert (includes (JStr <$> items) x = true) as ->.
    { apply includes_items, Ht. by left. }
    simpl. apply IH. intros y Hy. apply Ht. by right. }
  rewrite app_nil_r. apply forallb_filter_id, forallb_forall.
  intros x Hx. apply negb_true_iff, not_true_iff_false.
  rewrite includes_items. intros (s & -> & Hs')%list_elem_of_fmap.
  apply (Hfresh s Hs'). by apply list_elem_of_In.
Qed.

(** ** Counters on stored numbers *)

Lemma exact_integers c n r :
  exact_integer c = true → exact_integer n = true → exact_integer r = true →
  exact c n r = true.
Proof. unfold exact. intros -> -> ->. by rewrite orb_true_r. Qed.

Lemma plus_on_number co c n w :
  exact c n (c + n) = true →
  plus co (or_else (JNum c) (JNum 0)) n w = (Ok (JNum (c + n)), w).
Proof.
  intros He. unfold or_else. simpl.
  destruct (Z.eqb_spec c 0) as [->|_]; simpl; [done |]. by rewrite He.
Qed.

Lemma minus_on_number co c n w :
  exact c n (c - n) = true →
  minus co (or_else (JNum c) (JNum 0)) n w = (Ok (JNum (c - n)), w).
Proof.
  intros He. unfold or_else. simpl.
  destruct (Z.eqb_spec c 0) as [->|_]; simpl; [done |]. by rewrite He.
Qed.

(** X11.  Under a key that holds a number [c], [incr] returns [c + n] and
    [decr] returns [c - n], where [n] is the amount given and 1 when none is
    given, and each leaves what it returns as the stored value; in the
    wrapper over the Compute binding and in the wrapper over the HTTP API
    alike.  This holds where the arithmetic of doubles is exact: for [c],
    [n], [c + n] and [c - n] of magnitude at most 2^53. *)
Theorem counters_add_to_stored_number
    (store : KV.KVStore) (api : API.Service) (co : Coercion)
    (key : string) (c : Z) (amount : option Z) (w : world) :
  serves store key → answers api key → stored_value w key = JNum c →
  let n := default 1 amount in
  exact_integer c = true → exact_integer n = true →
  exact_integer (c + n) = true → exact_integer (c - n) = true →
  ∃ w1 w2 w3 w4,
    SplitStorageWrapper.incr (Some store) co key amount w =
      (Ok (JNum (c + n)), w1) ∧
    SplitStorageWrapper.decr (Some store) co key amount w =
      (Ok (JNum (c - n)), w2) ∧
    SyncToKV.incr api co key amount w = (Ok (JNum (c + n)), w3) ∧
    SyncToKV.decr api co key amount w = (Ok (JNum (c - n)), w4) ∧
    stored_value w1 key = JNum (c + n) ∧ stored_value w2 key = JNum (c - n) ∧
    stored_value w3 key = JNum (c + n) ∧ stored_value w4 key = JNum (c - n).
Proof.
  intros Hs Ha Hc n Ec En Ep Em.
  destruct (getValue_served store key w Hs) as [l1 H1].
  destruct (remote_getValue_served api key w Ha) as [l2 H2].
  pose proof Hs as (_ & _ & Hp & _).
  pose proof (exact_integers c n (c + n) Ec En Ep) as Hplus.
  pose proof (exact_integers c n (c - n) Ec En Em) as Hminus.
  unfold SplitStorageWrapper.incr, SplitStorageWrapper.decr, SyncToKV.incr,
    SyncToKV.decr, try_catch, bind.
  fold n. rewrite H1, H2, Hc, !plus_on_number, !minus_on_number by done.
  rewrite !setValue_stores, !remote_setValue_stores by done.
  eexists _, _, _, _. repeat split; apply stored_value_put.
Qed.

(** ** Reads that fail before a write *)

(** X12.  When the store rejects the read of a key and carries out the
    writes, the read-modify-write operations start from nothing: [addItems]
    leaves only the items given as the stored set, whatever was stored, and
    [incr] leaves (and returns) [0 + n]. *)
Theorem failed_read_overwrites
    (store : KV.KVStore) (co : Coercion) (key e : string)
    (items : list string) (amount : option Z) (w : world) :
  KV.rejects store (KV.Get key) = Some e →
  (∀ text, KV.rejects store (KV.Put key text) = None) →
  ∃ w1 w2,
    SplitStorageWrapper.addItems (Some store) key items w = (Ok tt, w1) ∧
    stored_value w1 key = JArr (new_Set (JStr <$> items)) ∧
    SplitStorageWrapper.incr (Some store) co key amount w =
      (Ok (JNum (0 + default 1 amount)), w2) ∧
    stored_value w2 key = JNum (0 + default 1 amount).
Proof.
  intros Hg Hp.
  destruct (getValue_observes (Some store) key w) as [lines Hget].
  assert (readable (Some store) key = false) as Hr.
  { unfold readable. by rewrite Hg. }
  rewrite Hr in Hget.
  unfold SplitStorageWrapper.addItems, SplitStorageWrapper.incr, try_catch, bind.
  rewrite Hget. simpl. rewrite !setValue_stores by done.
  eexists _, _. repeat split; apply stored_value_put.
Qed.

(** ** Listing keys on the Compute binding *)

Lemma listing_prefixed p n w key :
  key ∈ KV.listing (KV.ListOptions (Some p) n) w → String.prefix p key = true.
Proof.
  unfold KV.listing, KV.at_most. simpl. intros H.
  assert (key ∈ List.filter (λ k, String.prefix p k)
                  (map fst (map_to_list (kv_data w)))) as H'.
  { destruct n as [n|]; [| done].
    rewrite <- (take_drop n (List.filter _ _)). apply elem_of_app. by left. }
  by apply list_elem_of_In, filter_In in H' as [_ H'].
Qed.

Lemma listing_NoDup opts w : NoDup (KV.listing opts w).
Proof.
  unfold KV.listing.
  assert (NoDup (List.filter (KV.has_prefix (KV.opt_prefix opts))
                   (map fst (map_to_list (kv_data w))))) as H.
  { apply NoDup_ListNoDup, List.NoDup_filter, NoDup_ListNoDup.
    apply (NoDup_fst_map_to_list (kv_data w)). }
  unfold KV.at_most. destruct (KV.opt_limit opts) as [n|]; [| done].
  eapply sublist_NoDup; [exact H | apply sublist_take].
Qed.

(** X13.  [getKeysByPrefix] never raises and changes no stored text; every
    key it returns is a stored key that starts with the prefix, and no key
    is returned twice. *)
Theorem getKeysByPrefix_sound
    (kvStore : KV.handle) (prefix : string) (w : world) :
  ∃ keys w',
    SplitStorageWrapper.getKeysByPrefix kvStore prefix w = (Ok keys, w') ∧
    kv_data w' = kv_data w ∧ NoDup keys ∧
    (∀ key, key ∈ keys →
       String.prefix prefix key = true ∧ is_Some (kv_data w !! key)).
Proof.
  unfold SplitStorageWrapper.getKeysByPrefix, try_catch, bind, KV.list,
    KV.invoke, console_error, ret, throw.
  assert (∀ w' : world, kv_data w' = kv_data w →
            ∃ keys w'', (Ok ([] : list string), w') = (Ok keys, w'') ∧
              kv_data w'' = kv_data w ∧ NoDup keys ∧
              ∀ key, key ∈ keys →
                String.prefix prefix key = true ∧ is_Some (kv_data w !! key))
    as Hnone.
  { intros w' Hw'. exists [], w'. split; [done |]. split; [done |].
    split; [apply NoDup_nil_2 |]. by intros key ?%elem_of_nil. }
  destruct kvStore as [store|]; simpl; [| by apply Hnone].
  destruct (KV.rejects store _); simpl; [by apply Hnone |].
  eexists _, _. split; [done |]. split; [done |].
  split; [apply listing_NoDup |]. intros key Hkey. split.
  - by eapply listing_prefixed.
  - by eapply listing_stored.
Qed.

(** ** The wrapper over the HTTP API *)

Lemma remote_del_deletes api key w :
  answers api key →
  SyncToKV.del api key w =
  (Ok true, World (delete key (kv_data w)) (console w)).
Proof.
  intros (_ & _ & Hd).
  unfold SyncToKV.del, try_catch, bind, API.fetch, API.serve. rewrite Hd.
  destruct (kv_data w !! key) eqn:E; simpl; [done |].
  rewrite delete_id by done. by destruct w.
Qed.

Lemma remote_setValue_returns api key v w :
  ∃ b w' lines,
    SyncToKV.setValue api key v w = (Ok b, w') ∧
    console w' = console w ++ lines.
Proof.
  unfold SyncToKV.setValue, try_catch, bind, API.fetch, API.serve,
    console_error, ret, throw.
  destruct (API.fails api _) as [[e|st tx]|]; simpl.
  - by eexists _, _, _.
  - destruct (negb (API.ok _)); simpl; [by eexists _, _, _ |].
    eexists _, _, []. by rewrite app_nil_r.
  - eexists _, _, []. by rewrite app_nil_r.
Qed.

Lemma remote_del_returns api key w :
  ∃ b w', SyncToKV.del api key w = (Ok b, w').
Proof.
  unfold SyncToKV.del, try_catch, bind, API.fetch, API.serve,
    console_error, ret, throw.
  destruct (API.fails api _) as [[e|st tx]|]; simpl.
  - by eexists _, _.
  - destruct (API.ok _ || (st =? 404)); by eexists _, _.
  - destruct (kv_data w !! key); by eexists _, _.
Qed.

(** X14.  On a service that answers for the key, the wrapper over the HTTP
    API reads back what it wrote: [set] returns [true] and the next [get]
    returns the value; [getAndSet] returns the value that was stored and
    leaves the new one. *)
Theorem remote_set_then_get
    (api : API.Service) (key : string) (v : value) (w : world) :
  answers api key →
  ∃ w1 w2 w3,
    SyncToKV.set api key v w = (Ok true, w1) ∧
    SyncToKV.get api key w1 = (Ok v, w2) ∧
    SyncToKV.getAndSet api key v w = (Ok (stored_value w key), w3) ∧
    stored_value w3 key = v.
Proof.
  intros Ha.
  set (w1 := World (<[key := JSON.stringify v]> (kv_data w)) (console w)).
  destruct (remote_getValue_served api key w1 Ha) as [l1 H1].
  destruct (remote_getValue_served api key w Ha) as [l2 H2].
  exists w1, (logged w1 l1),
    (World (<[key := JSON.stringify v]> (kv_data w)) (console w ++ l2)).
  unfold SyncToKV.set, SyncToKV.get, SyncToKV.getAndSet, bind.
  rewrite H1, H2, !remote_setValue_stores by done.
  split; [done |]. split; [| split; [done |]].
  - do 2 f_equal. apply stored_value_put.
  - apply stored_value_put.
Qed.

(** X15.  On a service that answers for the key, [del] of the wrapper over
    the HTTP API returns [true] whether or not the key was stored (the
    status 404 counts as done); the next [get] returns null, and a second
    [del] returns [true] again and changes nothing. *)
Theorem remote_del_is_idempotent
    (api : API.Service) (key : string) (w : world) :
  answers api key →
  ∃ w1 w2 w3,
    SyncToKV.del api key w = (Ok true, w1) ∧
    SyncToKV.get api key w1 = (Ok JNull, w2) ∧
    SyncToKV.del api key w1 = (Ok true, w3) ∧
    kv_data w1 !! key = None ∧ w3 = w1.
Proof.
  intros Ha.
  set (w1 := World (delete key (kv_data w)) (console w)).
  assert (kv_data w1 !! key = None) as Hk by apply lookup_delete_eq.
  destruct (remote_getValue_served api key w1 Ha) as [l1 H1].
  rewrite (stored_value_absent w1 key Hk) in H1.
  exists w1, (logged w1 l1), w1.
  rewrite !remote_del_deletes by done. fold w1.
  split; [done |]. split; [done |]. split; [| done].
  by rewrite delete_id.
Qed.


(** X17.  Under a key whose stored value is truthy and neither an array nor
    a string, [addItems] of the wrapper over the HTTP API raises, where
    [addItems] of the wrapper over the Compute binding returns; neither
    changes a stored text. *)
Theorem remote_addItems_raises
    (store : KV.KVStore) (api : API.Service) (key : string)
    (items : list string) (w : world) :
  serves store key → answers api key →
  truthy (stored_value w key) = true → iterable (stored_value w key) = false →
  ∃ e w1 w2,
    SyncToKV.addItems api key items w = (Throw e, w1) ∧
    SplitStorageWrapper.addItems (Some store) key items w = (Ok tt, w2) ∧
    kv_data w1 = kv_data w ∧ kv_data w2 = kv_data w.
Proof.
  intros Hs Ha Ht Hi.
  destruct (getValue_served store key w Hs) as [l1 H1].
  destruct (remote_getValue_served api key w Ha) as [l2 H2].
  unfold SyncToKV.addItems, SplitStorageWrapper.addItems, try_catch, bind.
  rewrite H1, H2. unfold or_else. rewrite Ht.
  destruct (stored_value w key); try done; by eexists _, _, _.
Qed.

(** X18.  The wrapper over the HTTP API has no handler of its own around
    these operations, and still none of them raises, whatever the service
    does: [get], [set], [getAndSet], [del], [getMany], [itemContains],
    [removeItems] and [getItems] all return. *)
Theorem remote_operations_return
    (api : API.Service) (key item : string) (v : value)
    (items keys : list string) (w : world) :
  (∃ r w', SyncToKV.get api key w = (Ok r, w')) ∧
  (∃ r w', SyncToKV.set api key v w = (Ok r, w')) ∧
  (∃ r w', SyncToKV.getAndSet api key v w = (Ok r, w')) ∧
  (∃ r w', SyncToKV.del api key w = (Ok r, w')) ∧
  (∃ r w', SyncToKV.getMany api keys w = (Ok r, w')) ∧
  (∃ r w', SyncToKV.itemContains api key item w = (Ok r, w')) ∧
  (∃ r w', SyncToKV.removeItems api key items w = (Ok r, w')) ∧
  (∃ r w', SyncToKV.getItems api key w = (Ok r, w')).
Proof.
  destruct (remote_getValue_observes api key w) as [l H].
  destruct (remote_getMany_observes api keys w) as [lm Hm].
  unfold SyncToKV.get, SyncToKV.set, SyncToKV.getAndSet,
    SyncToKV.itemContains, SyncToKV.removeItems, SyncToKV.getItems, bind.
  rewrite H. repeat split; try by eexists _, _.
  - destruct (remote_setValue_returns api key v w) as (b & w' & _ & -> & _).
    by eexists _, _.
  - destruct (remote_setValue_returns api key v (logged w l))
      as (b & w' & _ & -> & _). by eexists _, _.
  - apply remote_del_returns.
  - destruct (truthy _ && isArray _); [| by eexists _, _].
    destruct (if fetchable api key then _ else _); try by eexists _, _.
    match goal with |- context [SyncToKV.setValue api key ?x ?w0] =>
      destruct (remote_setValue_returns api key x w0) as (b & w' & _ & -> & _)
    end. by eexists _, _.
Qed.

(** ** The two wrappers on one store *)

(** X19.  On a store and a service that both carry out every call on the
    key, the wrapper over the Compute binding and the wrapper over the HTTP
    API agree on [get], [set], [getAndSet], [del], [itemContains],
    [removeItems] and [getItems]: from one world they return the same and
    leave the same stored texts.  They agree on [addItems] too, unless the
    stored value is truthy and neither an array nor a string. *)
Theorem adapters_agree
    (store : KV.KVStore) (api : API.Service) (key item : string) (v : value)
    (items : list string) (w : world) :
  serves store key → answers api key →
  agree (SplitStorageWrapper.get (Some store) key) (SyncToKV.get api key) w ∧
  agree (SplitStorageWrapper.set (Some store) key v)
        (SyncToKV.set api key v) w ∧
  agree (SplitStorageWrapper.getAndSet (Some store) key v)
        (SyncToKV.getAndSet api key v) w ∧
  agree (SplitStorageWrapper.del (Some store) key) (SyncToKV.del api key) w ∧
  agree (SplitStorageWrapper.itemContains (Some store) key item)
        (SyncToKV.itemContains api key item) w ∧
  agree (SplitStorageWrapper.removeItems (Some store) key items)
        (SyncToKV.removeItems api key items) w ∧
  agree (SplitStorageWrapper.getItems (Some store) key)
        (SyncToKV.getItems api key) w ∧
  (truthy (stored_value w key) && negb (iterable (stored_value w key)) = false →
   agree (SplitStorageWrapper.addItems (Some store) key items)
         (SyncToKV.addItems api key items) w).
Proof.
  intros Hs Ha.
  destruct (getValue_served store key w Hs) as [l1 H1].
  destruct (remote_getValue_served api key w Ha) as [l2 H2].
  pose proof Hs as (_ & _ & Hp & Hd).
  unfold agree, SplitStorageWrapper.get, SyncToKV.get, SplitStorageWrapper.set,
    SyncToKV.set, SplitStorageWrapper.getAndSet, SyncToKV.getAndSet,
    SplitStorageWrapper.itemContains, SyncToKV.itemContains,
    SplitStorageWrapper.removeItems, SyncToKV.removeItems,
    SplitStorageWrapper.getItems, SyncToKV.getItems,
    SplitStorageWrapper.addItems, SyncToKV.addItems, try_catch, bind.
  rewrite H1, H2, !setValue_stores, !remote_setValue_stores,
    del_deletes, remote_del_deletes by done.
  repeat split; try done.
  - destruct (truthy _ && isArray _); [| done].
    destruct (stored_value w key); try done.
    by rewrite setValue_stores, remote_setValue_stores.
  - destruct (truthy _ && isArray _); [| done].
    destruct (stored_value w key); try done.
    by rewrite setValue_stores, remote_setValue_stores.
  - unfold or_else. destruct (stored_value w key), (truthy _); try done;
      simpl; by rewrite setValue_stores, remote_setValue_stores.
  - revert H. unfold or_else.
    destruct (stored_value w key), (truthy _); try done;
      simpl; by rewrite setValue_stores, remote_setValue_stores.
Qed.

(** ** The listing of keys over the HTTP API *)

Lemma all_map_keys_as_objects keys w :
  all_map (λ item, SyncToKVKeys.property item "key")
    ((λ k, JObj [("key", JStr k)]) <$> keys) w =
  (Ok ((λ k, Some (JStr k)) <$> keys), w).
Proof.
  revert w. induction keys as [|k keys IH]; intros w; [done |].
  rewrite !fmap_cons. simpl. unfold bind. simpl. by rewrite IH.
Qed.

Lemma all_map_keys_as_strings keys w :
  all_map (λ item, SyncToKVKeys.property item "key") (JStr <$> keys) w =
  (Ok ((λ _, None) <$> keys), w).
Proof.
  revert w. induction keys as [|k keys IH]; intros w; [done |].
  rewrite !fmap_cons. simpl. unfold bind. simpl. by rewrite IH.
Qed.

(** X20.  What [getKeysByPrefix] of the wrapper over the HTTP API makes of
    an answer: when the answer lists each key in an object with a [key]
    member, the keys are returned in order; when it lists the keys as plain
    strings, one [undefined] is returned for each key and no key at all. *)
Theorem remote_keys_decoding
    (list_fetch : string → M API.response) (prefix : string)
    (r : API.response) (keys : list string) (w w' : world) :
  list_fetch prefix w = (Ok r, w') → API.ok r = true →
  (JSON.parse (API.body r) = Some (keys_as_objects keys) →
   SyncToKVKeys.getKeysByPrefix list_fetch prefix w =
     (Ok ((λ k, Some (JStr k)) <$> keys), w')) ∧
  (JSON.parse (API.body r) = Some (keys_as_strings keys) →
   SyncToKVKeys.getKeysByPrefix list_fetch prefix w =
     (Ok ((λ _, None) <$> keys), w')).
Proof.
  intros Hf Hok.
  unfold SyncToKVKeys.getKeysByPrefix, try_catch, bind, JSON_parse.
  rewrite Hf, Hok. simpl.
  split; intros ->; simpl.
  - by rewrite all_map_keys_as_objects.
  - by rewrite all_map_keys_as_strings.
Qed.

(** X21.  [getKeysByPrefix] of the wrapper over the HTTP API never raises.
    It returns the empty list when the request is rejected, when the answer
    is not ok, and when the body of the answer is not JSON. *)
Theorem remote_keys_failures
    (list_fetch : string → M API.response) (prefix : string) (w : world) :
  ∃ keys w',
    SyncToKVKeys.getKeysByPrefix list_fetch prefix w = (Ok keys, w') ∧
    (match list_fetch prefix w with
     | (Throw _, _) => True
     | (Ok r, _) => API.ok r = false ∨ JSON.parse (API.body r) = None
     end → keys = []).
Proof.
  unfold SyncToKVKeys.getKeysByPrefix, try_catch.
  match goal with |- context [match ?m w with _ => _ end] =>
    destruct (m w) as [[ks|e] w2] eqn:E
  end; [| by eexists _, _].
  exists ks, w2. split; [done |]. revert E. unfold bind, JSON_parse.
  destruct (list_fetch prefix w) as [[r|e] w1]; [| done].
  intros E [Hok|Hp]; [by rewrite Hok in E | by rewrite Hp in E; destruct (API.ok r)].
Qed.

(** ** The configuration *)

Lemma setting_returns cs name fb w :
  (∀ store, cs = Some store → ∃ found, Config.entry store name = Ok found) →
  ∃ s, Config.setting cs name fb w = (Ok s, w) ∧
       (fb ≠ "" → s ≠ "") ∧ (cs = None → s = fb).
Proof.
  intros H. destruct cs as [store|]; simpl; [| by exists fb].
  destruct (H store eq_refl) as [found Hf].
  unfold bind, lift. rewrite Hf. eexists. split; [reflexivity |].
  split; [| done]. intros Hfb.
  destruct found as [s|]; simpl; [| done].
  by destruct (String.eqb_spec s "").
Qed.

Lemma sdk_key_loaded SecretStore_new w :
  ∃ sdkKey,
    try_catch
      (await secretStore := lift (SecretStore_new "SPLIT_SDK_KEY") in
       await sdkKeySecret :=
         lift (Config.secret secretStore "SPLIT_SDK_KEY") in
       match sdkKeySecret with
       | Some plaintext => lift plaintext
       | None => ret (Handler.SPLIT_SDK_KEY Config.DEFAULTS)
       end)
      (λ error, ret (Handler.SPLIT_SDK_KEY Config.DEFAULTS)) w =
    (Ok sdkKey, w) ∧
    (secret_unavailable SecretStore_new →
     sdkKey = Handler.SPLIT_SDK_KEY Config.DEFAULTS).
Proof.
  unfold secret_unavailable, try_catch, bind, lift, ret.
  destruct (SecretStore_new "SPLIT_SDK_KEY") as [store|e]; [| by eexists].
  destruct (Config.secret store "SPLIT_SDK_KEY") as [[[s|e]|]|e];
    by eexists.
Qed.

Lemma getConfig_returns SecretStore_new ConfigStore_new w :
  config_readable ConfigStore_new →
  ∃ cfg,
    Config.getConfig SecretStore_new ConfigStore_new w = (Ok cfg, w) ∧
    Handler.FEATURE_FLAG_NAME cfg ≠ "" ∧ Handler.KV_STORE_NAME cfg ≠ "" ∧
    Handler.DEFAULT_USER_KEY cfg ≠ "" ∧
    (secret_unavailable SecretStore_new →
     Handler.SPLIT_SDK_KEY cfg = Handler.SPLIT_SDK_KEY Config.DEFAULTS) ∧
    (∀ e, ConfigStore_new "split-config" = Throw e →
       Handler.FEATURE_FLAG_NAME cfg = Handler.FEATURE_FLAG_NAME Config.DEFAULTS ∧
       Handler.KV_STORE_NAME cfg = Handler.KV_STORE_NAME Config.DEFAULTS ∧
       Handler.DEFAULT_USER_KEY cfg = Handler.DEFAULT_USER_KEY Config.DEFAULTS).
Proof.
  intros Hc.
  destruct (sdk_key_loaded SecretStore_new w) as (sdkKey & Hk & Hdef).
  unfold Config.getConfig. unfold bind at 1. rewrite Hk.
  set (cs := match ConfigStore_new "split-config" with
             | Ok store => Some store
             | Throw _ => None
             end).
  assert (try_catch
            (await store := lift (ConfigStore_new "split-config") in
             ret (Some store))
            (λ _, ret None) w = (Ok cs, w)) as Hcs.
  { unfold try_catch, bind, lift, ret, cs.
    by destruct (ConfigStore_new "split-config"). }
  unfold bind at 1. rewrite Hcs.
  assert (∀ name store, cs = Some store →
            ∃ found, Config.entry store name = Ok found) as Hcs'.
  { intros name store. unfold cs.
    destruct (ConfigStore_new "split-config") eqn:E; [| done].
    intros [= <-]. by apply Hc. }
  destruct (setting_returns cs "FEATURE_FLAG_NAME"
              (Handler.FEATURE_FLAG_NAME Config.DEFAULTS) w (Hcs' _))
    as (f & Hf & Hf1 & Hf2).
  destruct (setting_returns cs "KV_STORE_NAME"
              (Handler.KV_STORE_NAME Config.DEFAULTS) w (Hcs' _))
    as (k & Hkv & Hk1 & Hk2).
  destruct (setting_returns cs "DEFAULT_USER_KEY"
              (Handler.DEFAULT_USER_KEY Config.DEFAULTS) w (Hcs' _))
    as (u & Hu & Hu1 & Hu2).
  unfold bind. rewrite Hf, Hkv, Hu. eexists. split; [reflexivity |]. simpl.
  split; [by apply Hf1 |]. split; [by apply Hk1 |]. split; [by apply Hu1 |].
  split; [done |]. intros e He.
  assert (cs = None) as Hn by (unfold cs; by rewrite He). auto.
Qed.

(** X23.  When the Config Store answers its lookups (or is not there),
    [getConfig] returns and leaves the world as it was.  The flag name, the
    store name and the default user key of the configuration are never
    empty; the SDK key is the placeholder of the defaults whenever the
    Secret Store gives none. *)
Theorem getConfig_settings
    (SecretStore_new : string → result Config.SecretStore)
    (ConfigStore_new : string → result Config.ConfigStore) (w : world) :
  config_readable ConfigStore_new →
  ∃ cfg,
    Config.getConfig SecretStore_new ConfigStore_new w = (Ok cfg, w) ∧
    Handler.FEATURE_FLAG_NAME cfg ≠ "" ∧ Handler.KV_STORE_NAME cfg ≠ "" ∧
    Handler.DEFAULT_USER_KEY cfg ≠ "" ∧
    (secret_unavailable SecretStore_new →
     Handler.SPLIT_SDK_KEY cfg = "<YOUR-SERVER-SIDE-SDK-KEY>").
Proof.
  intros Hc.
  destruct (getConfig_returns SecretStore_new ConfigStore_new w Hc)
    as (cfg & H & Hf & Hk & Hu & Hs & _).
  by exists cfg.
Qed.

(** X24.  When the Secret Store gives no SDK key and the Config Store is not
    there, [getConfig] returns the defaults. *)
Theorem getConfig_defaults
    (SecretStore_new : string → result Config.SecretStore)
    (ConfigStore_new : string → result Config.ConfigStore)
    (e : string) (w : world) :
  secret_unavailable SecretStore_new →
  ConfigStore_new "split-config" = Throw e →
  Config.getConfig SecretStore_new ConfigStore_new w = (Ok Config.DEFAULTS, w).
Proof.
  intros Hs He.
  destruct (getConfig_returns SecretStore_new ConfigStore_new w)
    as (cfg & H & _ & _ & _ & Hk & Hd).
  { intros store name Hst. congruence. }
  rewrite H. destruct (Hd e He) as (Hf & Hkv & Hu). specialize (Hk Hs).
  destruct cfg; simpl in *. by subst.
Qed.

(** ** The request handler, from the event on *)

Lemma or_default_nonempty x fb : fb ≠ "" → Handler.or_default x fb ≠ "".
Proof.
  intros H. destruct x as [s|]; simpl; [| done].
  by destruct (String.eqb_spec s "").
Qed.

Ltac among :=
  simpl in *; rewrite ?elem_of_cons, ?elem_of_nil in *;
  repeat match goal with H : _ ∨ _ |- _ => destruct H end;
  subst; try done; try lia; try congruence; auto 10.

Lemma handleGetTreatment_answers getTreatment u kvStore cfg w :
  ∃ r w',
    Handler.handleGetTreatment getTreatment u kvStore cfg w = (Ok r, w') ∧
    Handler.status r ∈ [200; 400; 500] ∧
    (Handler.DEFAULT_USER_KEY cfg ≠ "" → Handler.status r ≠ 400) ∧
    (String.prefix "<YOUR" (Handler.SPLIT_SDK_KEY cfg) = true →
     Handler.status r ≠ 200 ∧ w' = w).
Proof.
  unfold Handler.handleGetTreatment.
  destruct (String.eqb_spec
              (Handler.or_default
                 (Handler.searchParams_get (Handler.searchParams u) "key")
                 (Handler.DEFAULT_USER_KEY cfg)) "") as [He|Hne].
  - eexists _, _. split; [reflexivity |]. simpl.
    split; [among |]. split; [| done].
    intros H. by destruct (or_default_nonempty _ _ H He).
  - destruct (String.prefix "<YOUR" (Handler.SPLIT_SDK_KEY cfg)).
    + eexists _, _. split; [reflexivity |]. simpl. split; [among | done].
    + unfold try_catch, bind, console_error, ret.
      destruct (getTreatment kvStore cfg _ _ w) as [[t|e] w1];
        (eexists _, _; split; [reflexivity |]); simpl;
        (split; [among | done]).
Qed.

Lemma handleStatus_answers kvStore cfg w :
  ∃ r w',
    Handler.handleStatus kvStore cfg w = (Ok r, w') ∧
    Handler.status r ∈ [200; 500].
Proof.
  destruct (handleStatus_fails kvStore cfg w) as [e ->].
  eexists _, _. split; [reflexivity |]. among.
Qed.

Lemma handleRequest_returns KVStore_new getTreatment cfg u w :
  ∃ r w',
    Handler.handleRequest KVStore_new getTreatment cfg u w = (Ok r, w') ∧
    Handler.status r ∈ [200; 400; 404; 500] ∧
    (Handler.DEFAULT_USER_KEY cfg ≠ "" → Handler.status r ≠ 400) ∧
    (∀ e, KVStore_new (Handler.KV_STORE_NAME cfg) = Throw e →
       Handler.status r = 500 ∧ w' = w) ∧
    (Handler.pathname u = "/get-treatment" →
     String.prefix "<YOUR" (Handler.SPLIT_SDK_KEY cfg) = true →
     Handler.status r ∈ [400; 500] ∧ w' = w).
Proof.
  unfold Handler.handleRequest.
  destruct (KVStore_new (Handler.KV_STORE_NAME cfg)) as [store|e].
  2: { eexists _, _. split; [reflexivity |]. repeat split; intros; among. }
  destruct (String.eqb_spec (Handler.pathname u) "/") as [E1|E1].
  { eexists _, _. split; [reflexivity |]. simpl.
    repeat split; intros; among. }
  destruct (String.eqb_spec (Handler.pathname u) "/get-treatment") as [E2|E2].
  { destruct (handleGetTreatment_answers getTreatment u (Some store) cfg w)
      as (r & w' & -> & Hst & H400 & Hyour).
    exists r, w'. split; [done |]. split; [among |]. split; [done |].
    split; [done |]. intros _ Hy. destruct (Hyour Hy) as [H200 ->].
    split; [among | done]. }
  destruct (String.eqb_spec (Handler.pathname u) "/status") as [E3|E3].
  { destruct (handleStatus_answers (Some store) cfg w) as (r & w' & -> & Hst).
    exists r, w'. split; [done |]. repeat split; intros; among. }
  eexists _, _. split; [reflexivity |]. repeat split; intros; among.
Qed.

(** X25.  The router answers every request: it never raises, whatever the
    KV store and the SDK do, and the status of the answer is 200, 400, 404
    or 500.  When the KV store cannot be opened the answer is 500 for every
    path, the home page included, and nothing else happens. *)
Theorem router_always_answers
    (KVStore_new : string → result KV.KVStore)
    (getTreatment : KV.handle → Handler.config → string → string → M string)
    (cfg : Handler.config) (u : Handler.url) (w : world) :
  ∃ r w',
    Handler.handleRequest KVStore_new getTreatment cfg u w = (Ok r, w') ∧
    Handler.status r ∈ [200; 400; 404; 500] ∧
    (∀ e, KVStore_new (Handler.KV_STORE_NAME cfg) = Throw e →
       Handler.status r = 500 ∧ w' = w).
Proof.
  destruct (handleRequest_returns KVStore_new getTreatment cfg u w)
    as (r & w' & H & Hst & _ & Hkv & _).
  by exists r, w'.
Qed.

(** X26.  When the Config Store answers its lookups (or is not there), the
    status 400 is never answered from the event on: the configuration that
    [getConfig] returns always has a default user key, so the check for a
    missing user key never fails, and every request is answered with 200,
    404 or 500. *)
Theorem event_never_answers_400
    (SecretStore_new : string → result Config.SecretStore)
    (ConfigStore_new : string → result Config.ConfigStore)
    (KVStore_new : string → result KV.KVStore)
    (getTreatment : KV.handle → Handler.config → string → string → M string)
    (u : Handler.url) (w : world) :
  config_readable ConfigStore_new →
  ∃ r w',
    Entry.handleEvent SecretStore_new ConfigStore_new KVStore_new
      getTreatment u w = (Ok r, w') ∧
    Handler.status r ∈ [200; 404; 500].
Proof.
  intros Hc.
  destruct (getConfig_returns SecretStore_new ConfigStore_new w Hc)
    as (cfg & Hcfg & _ & _ & Hu & _).
  destruct (handleRequest_returns KVStore_new getTreatment cfg u w)
    as (r & w' & H & Hst & H400 & _).
  exists r, w'. unfold Entry.handleEvent, bind. rewrite Hcfg.
  split; [done |]. specialize (H400 Hu). among.
Qed.

(** X27.  When the Secret Store gives no SDK key and the Config Store
    answers its lookups (or is not there), a request for [/get-treatment] is
    never answered with a treatment: the answer is a 500, the world is left
    as it was, and this holds with every SDK. *)
Theorem no_secret_no_treatment
    (SecretStore_new : string → result Config.SecretStore)
    (ConfigStore_new : string → result Config.ConfigStore)
    (KVStore_new : string → result KV.KVStore)
    (getTreatment : KV.handle → Handler.config → string → string → M string)
    (u : Handler.url) (w : world) :
  config_readable ConfigStore_new → secret_unavailable SecretStore_new →
  Handler.pathname u = "/get-treatment" →
  ∃ r,
    Entry.handleEvent SecretStore_new ConfigStore_new KVStore_new
      getTreatment u w = (Ok r, w) ∧
    Handler.status r = 500.
Proof.
  intros Hc Hs Hp.
  destruct (getConfig_returns SecretStore_new ConfigStore_new w Hc)
    as (cfg & Hcfg & _ & _ & Hu & Hkey & _).
  destruct (handleRequest_returns KVStore_new getTreatment cfg u w)
    as (r & w' & H & Hst & H400 & _ & Hyour).
  destruct Hyour as [H45 ->]; [done | by rewrite (Hkey Hs) |].
  exists r. unfold Entry.handleEvent, bind. rewrite Hcfg.
  split; [done |]. specialize (H400 Hu). among.
Qed.

(** * Instances of the further properties *)

Lemma counter_world_json : all_json counter_world.
Proof.
  intros key text H. unfold counter_world in H. simpl in H.
  apply lookup_singleton_Some in H as [_ <-]. by eexists.
Qed.

Lemma operations_touch_own_key_witness :
  target (Del "other") ≠ Some "hits" ∧
  kv_data (call (Some KV.reliable) no_coercion (Del "other") counter_world).2
    !! "hits" = kv_data counter_world !! "hits".
Proof.
  split; [discriminate |].
  apply (operations_touch_own_key (Some KV.reliable) no_coercion (Del "other")
           counter_world "hits").
  discriminate.
Defined.

Lemma stored_texts_stay_json_witness :
  all_json counter_world ∧
  all_json (call (Some KV.reliable) no_coercion (Incr "hits" None)
              counter_world).2.
Proof.
  split; [exact counter_world_json |].
  apply (stored_texts_stay_json (Some KV.reliable) no_coercion (Incr "hits" None)
           counter_world).
  exact counter_world_json.
Defined.

Lemma wrapper_without_store_witness :
  Get "hits" ≠ Connect ∧
  ∃ r w',
    call None no_coercion (Get "hits") counter_world = (Ok r, w') ∧
    kv_data w' = kv_data counter_world ∧
    (first_call (Get "hits") ≠ None → r = fallback (Get "hits")).
Proof.
  split; [discriminate |].
  apply (wrapper_without_store no_coercion (Get "hits") counter_world).
  discriminate.
Defined.

Lemma getAndSet_swaps_witness :
  serves KV.reliable "hits" ∧
  ∃ w1 w2,
    SplitStorageWrapper.getAndSet (Some KV.reliable) "hits" (JStr "x")
      counter_world = (Ok (stored_value counter_world "hits"), w1) ∧
    SplitStorageWrapper.get (Some KV.reliable) "hits" w1 = (Ok (JStr "x"), w2).
Proof.
  split; [repeat split |].
  apply (getAndSet_swaps KV.reliable "hits" (JStr "x") counter_world).
  repeat split.
Defined.

Lemma malformed_text_reads_null_witness :
  serves KV.reliable "flag" ∧
  kv_data broken_world !! "flag" = Some "{oops" ∧
  JSON.parse "{oops" = None ∧
  ∃ line,
    SplitStorageWrapper.get (Some KV.reliable) "flag" broken_world =
    (Ok JNull,
     if String.eqb "{oops" "" then broken_world else logged broken_world [line]).
Proof.
  split; [repeat split |]. split; [reflexivity |].
  split; [vm_compute; reflexivity |].
  apply (malformed_text_reads_null KV.reliable "flag" "{oops" broken_world).
  - repeat split.
  - reflexivity.
  - vm_compute. reflexivity.
Defined.

Lemma removeItems_removes_witness :
  serves KV.reliable "segment" ∧
  stored_value set_world "segment" = JArr [JStr "a"; JStr "b"] ∧
  ∃ kept w1,
    SplitStorageWrapper.removeItems (Some KV.reliable) "segment" ["a"]
      set_world = (Ok tt, w1) ∧
    stored_value w1 "segment" = JArr kept ∧
    sublist kept [JStr "a"; JStr "b"] ∧
    (∀ x, x ∈ kept ↔ x ∈ [JStr "a"; JStr "b"] ∧ x ∉ JStr <$> ["a"]) ∧
    (∀ item, item ∈ ["a"] →
       ∃ w2, SplitStorageWrapper.itemContains (Some KV.reliable) "segment"
               item w1 = (Ok false, w2)).
Proof.
  split; [repeat split |]. split; [vm_compute; reflexivity |].
  apply (removeItems_removes KV.reliable "segment" ["a"]
           [JStr "a"; JStr "b"] set_world).
  - repeat split.
  - vm_compute. reflexivity.
Defined.

Lemma added_items_are_contained_witness :
  serves KV.reliable "segment" ∧
  holds_set set_world "segment" [JStr "a"; JStr "b"] ∧
  "c" ∈ ["b"; "c"] ∧
  ∃ w1 w2,
    SplitStorageWrapper.addItems (Some KV.reliable) "segment" ["b"; "c"]
      set_world = (Ok tt, w1) ∧
    SplitStorageWrapper.itemContains (Some KV.reliable) "segment" "c" w1 =
      (Ok true, w2).
Proof.
  split; [repeat split |]. split; [left; vm_compute; reflexivity |].
  split; [repeat constructor |].
  apply (added_items_are_contained KV.reliable "segment" "c" ["b"; "c"]
           [JStr "a"; JStr "b"] set_world).
  - repeat split.
  - left. vm_compute. reflexivity.
  - repeat constructor.
Defined.

Lemma fresh_item :
  ∀ item, item ∈ ["c"] → JStr item ∉ [JStr "a"; JStr "b"].
Proof.
  intros item ->%list_elem_of_singleton.
  rewrite !elem_of_cons, elem_of_nil. intros [|[|]]; done.
Qed.

Lemma add_then_remove_restores_witness :
  serves KV.reliable "segment" ∧
  holds_set set_world "segment" [JStr "a"; JStr "b"] ∧
  duplicate_free [JStr "a"; JStr "b"] ∧
  (∀ item, item ∈ ["c"] → JStr item ∉ [JStr "a"; JStr "b"]) ∧
  ∃ w1 w2,
    SplitStorageWrapper.addItems (Some KV.reliable) "segment" ["c"] set_world =
      (Ok tt, w1) ∧
    SplitStorageWrapper.removeItems (Some KV.reliable) "segment" ["c"] w1 =
      (Ok tt, w2) ∧
    stored_value w2 "segment" = JArr [JStr "a"; JStr "b"].
Proof.
  split; [repeat split |]. split; [left; vm_compute; reflexivity |].
  split; [repeat split |]. split; [exact fresh_item |].
  apply (add_then_remove_restores KV.reliable "segment" ["c"]
           [JStr "a"; JStr "b"] set_world).
  - repeat split.
  - left. vm_compute. reflexivity.
  - repeat split.
  - exact fresh_item.
Defined.

Lemma counters_add_to_stored_number_witness :
  serves KV.reliable "hits" ∧ answers API.reliable "hits" ∧
  stored_value counter_world "hits" = JNum 5 ∧
  exact_integer 5 = true ∧ exact_integer (default 1 None) = true ∧
  exact_integer (5 + default 1 None) = true ∧
  exact_integer (5 - default 1 None) = true ∧
  ∃ w1 w2 w3 w4,
    SplitStorageWrapper.incr (Some KV.reliable) no_coercion "hits" None
      counter_world = (Ok (JNum (5 + default 1 None)), w1) ∧
    SplitStorageWrapper.decr (Some KV.reliable) no_coercion "hits" None
      counter_world = (Ok (JNum (5 - default 1 None)), w2) ∧
    SyncToKV.incr API.reliable no_coercion "hits" None counter_world =
      (Ok (JNum (5 + default 1 None)), w3) ∧
    SyncToKV.decr API.reliable no_coercion "hits" None counter_world =
      (Ok (JNum (5 - default 1 None)), w4) ∧
    stored_value w1 "hits" = JNum (5 + default 1 None) ∧
    stored_value w2 "hits" = JNum (5 - default 1 None) ∧
    stored_value w3 "hits" = JNum (5 + default 1 None) ∧
    stored_value w4 "hits" = JNum (5 - default 1 None).
Proof.
  split; [repeat split |]. split; [repeat split |].
  do 5 (split; [vm_compute; reflexivity |]).
  apply (counters_add_to_stored_number KV.reliable API.reliable no_coercion
           "hits" 5 None counter_world).
  - repeat split.
  - repeat split.
  - vm_compute. reflexivity.
  - vm_compute. reflexivity.
  - vm_compute. reflexivity.
  - vm_compute. reflexivity.
  - vm_compute. reflexivity.
Defined.

Lemma failed_read_overwrites_witness :
  KV.rejects unreadable (KV.Get "segment") = Some "Error: read failed" ∧
  (∀ text, KV.rejects unreadable (KV.Put "segment" text) = None) ∧
  ∃ w1 w2,
    SplitStorageWrapper.addItems (Some unreadable) "segment" ["c"] set_world =
      (Ok tt, w1) ∧
    stored_value w1 "segment" = JArr (new_Set (JStr <$> ["c"])) ∧
    SplitStorageWrapper.incr (Some unreadable) no_coercion "segment" (Some 2)
      set_world = (Ok (JNum (0 + default 1 (Some 2))), w2) ∧
    stored_value w2 "segment" = JNum (0 + default 1 (Some 2)).
Proof.
  split; [reflexivity |]. split; [reflexivity |].
  apply (failed_read_overwrites unreadable no_coercion "segment"
           "Error: read failed" ["c"] (Some 2) set_world).
  - reflexivity.
  - reflexivity.
Defined.

Lemma remote_set_then_get_witness :
  answers API.reliable "hits" ∧
  ∃ w1 w2 w3,
    SyncToKV.set API.reliable "hits" (JBool true) counter_world = (Ok true, w1) ∧
    SyncToKV.get API.reliable "hits" w1 = (Ok (JBool true), w2) ∧
    SyncToKV.getAndSet API.reliable "hits" (JBool true) counter_world =
      (Ok (stored_value counter_world "hits"), w3) ∧
    stored_value w3 "hits" = JBool true.
Proof.
  split; [repeat split |].
  apply (remote_set_then_get API.reliable "hits" (JBool true) counter_world).
  repeat split.
Defined.

Lemma remote_del_is_idempotent_witness :
  answers API.reliable "hits" ∧
  ∃ w1 w2 w3,
    SyncToKV.del API.reliable "hits" counter_world = (Ok true, w1) ∧
    SyncToKV.get API.reliable "hits" w1 = (Ok JNull, w2) ∧
    SyncToKV.del API.reliable "hits" w1 = (Ok true, w3) ∧
    kv_data w1 !! "hits" = None ∧ w3 = w1.
Proof.
  split; [repeat split |].
  apply (remote_del_is_idempotent API.reliable "hits" counter_world).
  repeat split.
Defined.


Lemma remote_addItems_raises_witness :
  serves KV.reliable "hits" ∧ answers API.reliable "hits" ∧
  truthy (stored_value counter_world "hits") = true ∧
  iterable (stored_value counter_world "hits") = false ∧
  ∃ e w1 w2,
    SyncToKV.addItems API.reliable "hits" ["a"] counter_world = (Throw e, w1) ∧
    SplitStorageWrapper.addItems (Some KV.reliable) "hits" ["a"] counter_world =
      (Ok tt, w2) ∧
    kv_data w1 = kv_data counter_world ∧ kv_data w2 = kv_data counter_world.
Proof.
  split; [repeat split |]. split; [repeat split |].
  split; [vm_compute; reflexivity |]. split; [vm_compute; reflexivity |].
  apply (remote_addItems_raises KV.reliable API.reliable "hits" ["a"]
           counter_world).
  - repeat split.
  - repeat split.
  - vm_compute. reflexivity.
  - vm_compute. reflexivity.
Defined.

Lemma adapters_agree_witness :
  serves KV.reliable "segment" ∧ answers API.reliable "segment" ∧
  agree (SplitStorageWrapper.get (Some KV.reliable) "segment")
        (SyncToKV.get API.reliable "segment") set_world ∧
  agree (SplitStorageWrapper.set (Some KV.reliable) "segment" JNull)
        (SyncToKV.set API.reliable "segment" JNull) set_world ∧
  agree (SplitStorageWrapper.getAndSet (Some KV.reliable) "segment" JNull)
        (SyncToKV.getAndSet API.reliable "segment" JNull) set_world ∧
  agree (SplitStorageWrapper.del (Some KV.reliable) "segment")
        (SyncToKV.del API.reliable "segment") set_world ∧
  agree (SplitStorageWrapper.itemContains (Some KV.reliable) "segment" "a")
        (SyncToKV.itemContains API.reliable "segment" "a") set_world ∧
  agree (SplitStorageWrapper.removeItems (Some KV.reliable) "segment" ["a"])
        (SyncToKV.removeItems API.reliable "segment" ["a"]) set_world ∧
  agree (SplitStorageWrapper.getItems (Some KV.reliable) "segment")
        (SyncToKV.getItems API.reliable "segment") set_world ∧
  (truthy (stored_value set_world "segment")
   && negb (iterable (stored_value set_world "segment")) = false →
   agree (SplitStorageWrapper.addItems (Some KV.reliable) "segment" ["a"])
         (SyncToKV.addItems API.reliable "segment" ["a"]) set_world).
Proof.
  split; [repeat split |]. split; [repeat split |].
  apply (adapters_agree KV.reliable API.reliable "segment" "a" JNull ["a"]
           set_world).
  - repeat split.
  - repeat split.
Defined.

Lemma remote_keys_decoding_witness :
  keys_answer (keys_as_strings ["a"; "b"]) "" empty_world =
    (Ok (API.Response 200 "OK" (JSON.stringify (keys_as_strings ["a"; "b"]))),
     empty_world) ∧
  API.ok (API.Response 200 "OK" (JSON.stringify (keys_as_strings ["a"; "b"])))
    = true ∧
  SyncToKVKeys.getKeysByPrefix (keys_answer (keys_as_strings ["a"; "b"])) ""
    empty_world = (Ok [None; None], empty_world).
Proof.
  split; [reflexivity |]. split; [reflexivity |].
  apply (remote_keys_decoding (keys_answer (keys_as_strings ["a"; "b"])) ""
           (API.Response 200 "OK" (JSON.stringify (keys_as_strings ["a"; "b"])))
           ["a"; "b"] empty_world empty_world).
  - reflexivity.
  - reflexivity.
  - vm_compute. reflexivity.
Defined.

Lemma no_config_store_readable : config_readable no_config_store.
Proof. intros store name H. discriminate H. Qed.

Lemma getConfig_settings_witness :
  config_readable no_config_store ∧
  ∃ cfg,
    Config.getConfig no_secret_store no_config_store empty_world =
      (Ok cfg, empty_world) ∧
    Handler.FEATURE_FLAG_NAME cfg ≠ "" ∧ Handler.KV_STORE_NAME cfg ≠ "" ∧
    Handler.DEFAULT_USER_KEY cfg ≠ "" ∧
    (secret_unavailable no_secret_store →
     Handler.SPLIT_SDK_KEY cfg = "<YOUR-SERVER-SIDE-SDK-KEY>").
Proof.
  split; [exact no_config_store_readable |].
  apply (getConfig_settings no_secret_store no_config_store empty_world).
  exact no_config_store_readable.
Defined.

Lemma getConfig_defaults_witness :
  secret_unavailable no_secret_store ∧
  no_config_store "split-config" = Throw "Error: no such config store" ∧
  Config.getConfig no_secret_store no_config_store empty_world =
    (Ok Config.DEFAULTS, empty_world).
Proof.
  split; [exact I |]. split; [reflexivity |].
  apply (getConfig_defaults no_secret_store no_config_store
           "Error: no such config store" empty_world).
  - exact I.
  - reflexivity.
Defined.

Lemma event_never_answers_400_witness :
  config_readable no_config_store ∧
  ∃ r w',
    Entry.handleEvent demo_secret_store no_config_store demo_store demo_sdk
      (Handler.Url "/get-treatment" [("key", "")]) empty_world = (Ok r, w') ∧
    Handler.status r ∈ [200; 404; 500].
Proof.
  split; [exact no_config_store_readable |].
  apply (event_never_answers_400 demo_secret_store no_config_store demo_store
           demo_sdk (Handler.Url "/get-treatment" [("key", "")]) empty_world).
  exact no_config_store_readable.
Defined.

Lemma no_secret_no_treatment_witness :
  config_readable no_config_store ∧ secret_unavailable no_secret_store ∧
  Handler.pathname (Handler.Url "/get-treatment" [("key", "u1")]) =
    "/get-treatment" ∧
  ∃ r,
    Entry.handleEvent no_secret_store no_config_store demo_store demo_sdk
      (Handler.Url "/get-treatment" [("key", "u1")]) empty_world =
      (Ok r, empty_world) ∧
    Handler.status r = 500.
Proof.
  split; [exact no_config_store_readable |]. split; [exact I |].
  split; [reflexivity |].
  apply (no_secret_no_treatment no_secret_store no_config_store demo_store
           demo_sdk (Handler.Url "/get-treatment" [("key", "u1")]) empty_world).
  - exact no_config_store_readable.
  - exact I.
  - reflexivity.
Defined.
